(** * Request-input defense layer of [nextjs/app/lib/validation.ts]

    A shallow embedding of the sanitizers, the validation adapter and the
    sliding-window rate limiter, with the properties stated for them, and of
    the query that the users route and the user table build.

    Conventions of the embedding:
    - a JavaScript string is the list of its UTF-16 code units ([list N]);
      [.length], [.slice] and the regular expressions of the source (none has
      the [u] flag) all work on code units;
    - [Date.now()] is an input of each limiter call, an integer number of
      milliseconds ([Z]), and [windowMs] is an integer too; [maxRequests] is
      any rational number ([Q]), since nothing in the source makes it whole;
    - the [Map] owned by a limiter is a [gmap] threaded through the calls. *)

From Stdlib Require Import ZArith NArith QArith Ascii String List Lia Lqa.
From stdpp Require Import gmap list strings sorting.

Local Open Scope N_scope.

(** ** JavaScript strings *)

Abbreviation jsstring := (list N).

(** Code units of an ASCII literal of the source. *)
Definition js (s : string) : jsstring :=
  map N_of_ascii (list_ascii_of_string s).

(** ** Regular expressions

    The fragment the source uses: a sequence of atoms, each a literal
    character or a character class, with the [i] flag or without it. *)

Module Regex.

Inductive atom : Type :=
| Char (c : N)
| Class (cs : list N).

Record t : Type := mk { atoms : list atom; ignoreCase : bool }.

(** [Canonicalize] of ECMA-262 for a pattern without the [u] flag, on the
    code units that matter for the ASCII patterns of the source: an ASCII
    lower-case letter maps to its upper-case letter, and a code unit of 128
    or more never maps below 128, so it is left in place here. *)
Definition canonicalize (c : N) : N :=
  if (97 <=? c) && (c <=? 122) then c - 32 else c.

Definition char_eq (i : bool) (p c : N) : bool :=
  if i then canonicalize p =? canonicalize c else p =? c.

Definition atom_matches (i : bool) (a : atom) (c : N) : bool :=
  match a with
  | Char p => char_eq i p c
  | Class cs => existsb (fun p => char_eq i p c) cs
  end.

(** Match the atoms at the start of [s]; the result is the number of code
    units the match consumes. *)
Fixpoint match_here (i : bool) (ats : list atom) (s : jsstring) : option nat :=
  match ats with
  | [] => Some O
  | a :: ats' =>
      match s with
      | [] => None
      | c :: s' =>
          if atom_matches i a c
          then option_map S (match_here i ats' s')
          else None
      end
  end.

Definition exec (r : t) (s : jsstring) : option nat :=
  match_here (ignoreCase r) (atoms r) s.

(** [s.replace(r, '')] for a global [r]: scan from the left; where [r]
    matches, drop the matched code units and go on after them ([skip] is
    the number of matched units still to drop, the distance to
    [lastIndex]); elsewhere keep the code unit. *)
Fixpoint replace_from (r : t) (skip : nat) (s : jsstring) : jsstring :=
  match s with
  | [] => []
  | c :: s' =>
      match skip with
      | S k => replace_from r k s'
      | O =>
          match exec r s with
          | Some (S k) => replace_from r k s'
          | _ => c :: replace_from r O s'
          end
      end
  end.

Definition replace_all (r : t) (s : jsstring) : jsstring :=
  replace_from r O s.

(** [r] matches somewhere in [s] (a non-empty match). *)
Fixpoint occurs (r : t) (s : jsstring) : bool :=
  match s with
  | [] => false
  | _ :: s' =>
      match exec r s with
      | Some (S _) => true
      | _ => occurs r s'
      end
  end.

(** A chain of global replacements, the first of the list applied first. *)
Definition strip (rs : list t) (s : jsstring) : jsstring :=
  fold_left (fun acc r => replace_all r acc) rs s.

(** None of the expressions matches anywhere in [s]. *)
Definition none_occurs (rs : list t) (s : jsstring) : bool :=
  forallb (fun r => negb (occurs r s)) rs.

Definition literal (i : bool) (s : string) : t :=
  mk (map Char (js s)) i.

Definition class (s : string) : t :=
  mk [Class (js s)] false.

End Regex.

(** ** [String.prototype.trim] *)

(** WhiteSpace and LineTerminator code units of ECMA-262. *)
Definition is_white_space (c : N) : bool :=
  existsb (N.eqb c)
    [9; 10; 11; 12; 13; 32; 160; 5760; 8232; 8233; 8239; 8287; 12288; 65279]
  || ((8192 <=? c) && (c <=? 8202)).

Fixpoint trim_start (s : jsstring) : jsstring :=
  match s with
  | [] => []
  | c :: s' => if is_white_space c then trim_start s' else s
  end.

Definition trim_end (s : jsstring) : jsstring := rev (trim_start (rev s)).

Definition trim (s : jsstring) : jsstring := trim_end (trim_start s).

(** ** Sanitizers *)

Definition re_angle : Regex.t := Regex.class "<>".
Definition re_javascript : Regex.t := Regex.literal true "javascript:".

Definition sanitizeText (text : jsstring) : jsstring :=
  trim (Regex.replace_all re_javascript (Regex.replace_all re_angle text)).

(** The character class of the first replacement: the code units 39 (single
    quote), 34 (double quote), 59 (semicolon) and 92 (backslash). *)
Definition re_quotes : Regex.t := Regex.mk [Regex.Class [39; 34; 59; 92]] false.
Definition re_dashes : Regex.t := Regex.literal false "--".
Definition re_open_comment : Regex.t := Regex.literal false "/*".
Definition re_close_comment : Regex.t := Regex.literal false "*/".
Definition re_xp : Regex.t := Regex.literal true "xp_".
Definition re_sp : Regex.t := Regex.literal true "sp_".

Definition validateSearchQuery (query : jsstring) : jsstring :=
  let sanitized :=
    take 100
      (Regex.replace_all re_sp
        (Regex.replace_all re_xp
          (Regex.replace_all re_close_comment
            (Regex.replace_all re_open_comment
              (Regex.replace_all re_dashes
                (Regex.replace_all re_quotes query)))))) in
  trim sanitized.

(** The literal patterns of [validateSearchQuery], in the order of its
    replacements. *)
Definition search_patterns : list Regex.t :=
  [re_dashes; re_open_comment; re_close_comment; re_xp; re_sp].

(** [sanitizeHtml] hands its argument to [DOMPurify.sanitize] with the
    configuration below; the HTML parser and the sanitizer are the library's. *)
Definition ALLOWED_TAGS : list jsstring :=
  [js "b"; js "i"; js "em"; js "strong"; js "a"].
Definition ALLOWED_ATTR : list jsstring := [js "href"].
Definition ALLOW_DATA_ATTR : bool := false.

(** ** The search-term pipeline in the words of the specification

    "removes single/double quote and backslash characters, removes the
    two-character sequence --, removes /* and */, removes (case-insensitively)
    the prefixes xp_ and sp_ wherever they occur, truncates the result to 100
    characters, then trims whitespace." *)

Module Reference.

Definition remove_chars (cs : list N) (s : jsstring) : jsstring :=
  List.filter (fun c => negb (existsb (N.eqb c) cs)) s.

Definition lower (c : N) : N :=
  if (65 <=? c) && (c <=? 90) then c + 32 else c.

Definition same_char (ci : bool) (a b : N) : bool :=
  if ci then lower a =? lower b else a =? b.

Fixpoint starts_with (ci : bool) (pat s : jsstring) : bool :=
  match pat, s with
  | [], _ => true
  | _ :: _, [] => false
  | p :: pat', c :: s' => same_char ci p c && starts_with ci pat' s'
  end.

(** Remove every occurrence of [pat], reading from the left; [fuel] bounds
    the number of steps and [length s] is always enough. *)
Fixpoint remove_seq_fuel (fuel : nat) (ci : bool) (pat s : jsstring) : jsstring :=
  match fuel with
  | O => s
  | S fuel' =>
      match s with
      | [] => []
      | c :: s' =>
          if starts_with ci pat s
          then remove_seq_fuel fuel' ci pat (drop (length pat) s)
          else c :: remove_seq_fuel fuel' ci pat s'
      end
  end.

Definition remove_seq (ci : bool) (pat : string) (s : jsstring) : jsstring :=
  remove_seq_fuel (length s) ci (js pat) s.

Definition strip_injection (quotes : list N) (s : jsstring) : jsstring :=
  remove_seq true "sp_"
    (remove_seq true "xp_"
      (remove_seq false "*/"
        (remove_seq false "/*"
          (remove_seq false "--"
            (remove_chars quotes s))))).

(** The pipeline as the specification words it: quote, double quote and
    backslash are the characters removed. *)
Definition sanitizeSearchTerm (s : jsstring) : jsstring :=
  trim (take 100 (strip_injection [39; 34; 92] s)).

(** The same pipeline with the semicolon added to the removed characters. *)
Definition sanitizeSearchTerm_semicolon (s : jsstring) : jsstring :=
  trim (take 100 (strip_injection [39; 34; 59; 92] s)).

End Reference.

(** ** Rate limiter *)

Local Open Scope Z_scope.

Module RateLimiter.

(** The closure returned by [createRateLimiter]: its two captured
    parameters and the [requests] map it owns. *)
Record t : Type := mk {
  windowMs : Z;
  maxRequests : Q;
  requests : gmap (list N) (list Z)
}.

Definition createRateLimiter (windowMs : Z) (maxRequests : Q) : t :=
  mk windowMs maxRequests ∅.

Definition recentRequests (l : t) (identifier : jsstring) (now : Z) : list Z :=
  let windowStart := now - windowMs l in
  let userRequests := default [] (requests l !! identifier) in
  filter (fun time => windowStart < time) userRequests.

(** One call of the closure, [Date.now()] being [now]; the test is
    [recentRequests.length >= maxRequests]. *)
Definition call (l : t) (identifier : jsstring) (now : Z) : bool * t :=
  let recent := recentRequests l identifier now in
  if Qle_bool (maxRequests l) (inject_Z (Z.of_nat (length recent)))
  then (false, l)
  else (true,
        mk (windowMs l) (maxRequests l)
           (<[identifier := recent ++ [now]]> (requests l))).

(** A sequence of calls, each with its identifier and its time; the
    answers come in the order of the calls. *)
Fixpoint run (l : t) (calls : list (jsstring * Z)) : list bool * t :=
  match calls with
  | [] => ([], l)
  | (identifier, now) :: rest =>
      let (answer, l') := call l identifier now in
      let (answers, l'') := run l' rest in
      (answer :: answers, l'')
  end.

(** The answers a run gives to the calls of one identifier. *)
Definition answers_for (b : jsstring) (l : t) (calls : list (jsstring * Z)) : list bool :=
  map snd
    (filter (fun p : jsstring * bool => fst p = b)
       (zip (map fst calls) (fst (run l calls)))).

(** Two limiters with the same parameters and the same list for [b]. *)
Definition agree_on (b : jsstring) (l1 l2 : t) : Prop :=
  windowMs l1 = windowMs l2 /\ maxRequests l1 = maxRequests l2 /\
  requests l1 !! b = requests l2 !! b.

End RateLimiter.

(** ** Schema validation and the adapter *)

Module Validation.

(** Untyped input values, as they come out of a query string or a JSON
    body. *)
Inductive value : Type :=
| VNull
| VString (s : jsstring)
| VNumber (n : Z)
| VBoolean (b : bool).

(** Modelled from the spec: a field schema, "a primitive type
    (string/number/enum), required/optional, min/max length or numeric bounds,
    a format constraint, and an optional post-validation transform"; the
    schema library that gives these their meaning is a dependency, absent
    from the sources. A constraint comes with the message of its failure, as
    in the schemas of the source. *)
Definition check (A : Type) : Type := (A -> bool) * jsstring.

Inductive FieldKind : Type :=
| KString (checks : list (check jsstring))
| KNumber (checks : list (check Z))
| KEnum (allowed : list jsstring) (message : jsstring).

Record FieldSchema : Type := mkField {
  kind : FieldKind;
  required : bool;
  transform : option (jsstring -> jsstring);
  required_error : jsstring;
  invalid_type_error : jsstring
}.

(** Modelled from the spec: a record schema, the "ordered mapping of field
    name to FieldSchema". *)
Definition RecordSchema : Type := list (jsstring * FieldSchema).

Inductive field_result : Type :=
| Skipped
| Valid (v : value)
| Invalid (message : jsstring).

(** Message of the first constraint that [x] violates. *)
Fixpoint first_failure {A : Type} (checks : list (check A)) (x : A) : option jsstring :=
  match checks with
  | [] => None
  | (ok, message) :: rest =>
      if ok x then first_failure rest x else Some message
  end.

Definition apply_transform (f : FieldSchema) (s : jsstring) : jsstring :=
  match transform f with
  | Some g => g s
  | None => s
  end.

(** Modelled from the spec: the per-field rule of [validate] (the schema
    library that runs it is a dependency, absent from the sources). "If
    required and absent/null, record a required failure; if present, check
    primitive type, then bounds/format constraints; on success, apply the
    field's transform". *)
Definition check_field (f : FieldSchema) (v : option value) : field_result :=
  match v with
  | None | Some VNull =>
      if required f then Invalid (required_error f) else Skipped
  | Some (VString s) =>
      match kind f with
      | KString checks =>
          match first_failure checks s with
          | Some message => Invalid message
          | None => Valid (VString (apply_transform f s))
          end
      | KEnum allowed message =>
          if existsb (fun a => bool_decide (a = s)) allowed
          then Valid (VString (apply_transform f s))
          else Invalid message
      | KNumber _ => Invalid (invalid_type_error f)
      end
  | Some (VNumber n) =>
      match kind f with
      | KNumber checks =>
          match first_failure checks n with
          | Some message => Invalid message
          | None => Valid (VNumber n)
          end
      | _ => Invalid (invalid_type_error f)
      end
  | Some (VBoolean _) => Invalid (invalid_type_error f)
  end.

Inductive result : Type :=
| Success (record : gmap (list N) value)
| Failure (messages : list jsstring).

(** Modelled from the spec: one step of [validate] (absent from the sources
    for the same reason). A valid field is stored "in the output record under
    the same key", a failure is recorded after the earlier ones, an absent
    optional field leaves both as they are. *)
Definition visit (input : gmap (list N) value)
    (acc : gmap (list N) value * list jsstring)
    (field : jsstring * FieldSchema) : gmap (list N) value * list jsstring :=
  match check_field (snd field) (input !! fst field) with
  | Skipped => acc
  | Valid v => (<[fst field := v]> (fst acc), snd acc)
  | Invalid message => (fst acc, snd acc ++ [message])
  end.

(** Modelled from the spec: [validate] visits the fields "in the schema's
    declared order"; "success carries the fully transformed record; failure
    carries the ordered list of per-field messages". *)
Definition validate (schema : RecordSchema) (input : gmap (list N) value) : result :=
  let (output, messages) := foldl (visit input) (∅, []) schema in
  match messages with
  | [] => Success output
  | _ :: _ => Failure messages
  end.

(** The failures of all the fields of a schema, one by one. *)
Definition field_failures (schema : RecordSchema) (input : gmap (list N) value)
  : list jsstring :=
  omap (fun field : jsstring * FieldSchema =>
          match check_field (snd field) (input !! fst field) with
          | Invalid message => Some message
          | _ => None
          end) schema.

(** What a JavaScript call completes with. *)
Record ZodIssue : Type := mkIssue { message : jsstring }.

Inductive exception : Type :=
| ZodError (errors : list ZodIssue)
| Error (message : jsstring)
| Other (payload : jsstring).

Inductive completion (T : Type) : Type :=
| Return (v : T)
| Throw (e : exception).
Arguments Return {T} v.
Arguments Throw {T} e.

(** [Array.prototype.join]. *)
Fixpoint join (sep : jsstring) (parts : list jsstring) : jsstring :=
  match parts with
  | [] => []
  | [x] => x
  | x :: rest => x ++ sep ++ join sep rest
  end.

(** [validateApiInput(schema)(input)], the schema given by its [parse]. *)
Definition validateApiInput {T : Type} (parse : gmap (list N) value -> completion T)
    (input : gmap (list N) value) : completion T :=
  match parse input with
  | Return v => Return v
  | Throw (ZodError errors) =>
      Throw (Error (js "Validation failed: " ++ join (js ", ") (map message errors)))
  | Throw e => Throw e
  end.

(** Modelled from the spec: [schema.parse] of a record schema, which
    returns the record of [validate] or throws a [ZodError] with one issue per
    message. *)
Definition parse (schema : RecordSchema) (input : gmap (list N) value)
  : completion (gmap (list N) value) :=
  match validate schema input with
  | Success record => Return record
  | Failure messages => Throw (ZodError (map mkIssue messages))
  end.

(** The [name] and [email] fields of [userValidationSchema] with their
    constraints and messages. The pattern of [name] is one or more letters,
    white space, quotes or hyphens; the pattern behind [.email()] belongs to
    the schema library and is the parameter [is_email]. *)
Definition min_length (n : nat) (s : jsstring) : bool := Nat.leb n (length s).
Definition max_length (n : nat) (s : jsstring) : bool := Nat.leb (length s) n.

Definition name_char (c : N) : bool :=
  ((65 <=? c) && (c <=? 90))%N || ((97 <=? c) && (c <=? 122))%N
  || is_white_space c || (c =? 39)%N || (c =? 45)%N.

Definition name_pattern (s : jsstring) : bool :=
  match s with
  | [] => false
  | _ :: _ => forallb name_char s
  end.

Definition name_field : FieldSchema :=
  mkField
    (KString [(min_length 1, js "Name is required");
              (max_length 100, js "Name must be less than 100 characters");
              (name_pattern, js "Name contains invalid characters")])
    true None (js "Required") (js "Invalid input").

Definition email_field (is_email : jsstring -> bool) : FieldSchema :=
  mkField
    (KString [(is_email, js "Invalid email format");
              (max_length 100, js "Email must be less than 100 characters")])
    true None (js "Required") (js "Invalid input").

Definition name_email_schema (is_email : jsstring -> bool) : RecordSchema :=
  [(js "name", name_field); (js "email", email_field is_email)].

(** The input [{name: "x", email: "y@z.com", admin: true}]. *)
Definition input_with_admin : gmap (list N) value :=
  <[js "name" := VString (js "x")]>
    (<[js "email" := VString (js "y@z.com")]>
      (<[js "admin" := VBoolean true]> ∅)).

(** An email format to run the schema with: the address holds an at sign
    (code unit 64). The pattern of the schema library is stricter. *)
Definition has_at_sign (s : jsstring) : bool := existsb (N.eqb 64) s.

(** The input [{name: "", email: "nope"}], which fails on both fields. *)
Definition input_invalid : gmap (list N) value :=
  <[js "name" := VString []]> (<[js "email" := VString (js "nope")]> ∅).

End Validation.

(** ** The transform of the [search] field of [searchValidationSchema]

    [(val) => val ? validateSearchQuery(val) : val], where [val] is a string
    or [undefined] ([None]); the empty string is falsy. *)
Definition search_transform (val : option jsstring) : option jsstring :=
  match val with
  | Some (c :: s) => Some (validateSearchQuery (c :: s))
  | _ => val
  end.

(** ** Observations on a run of the limiter *)

(** The times of the calls of [b] that a run admits, in the order of the
    calls. *)
Definition admitted_times (b : jsstring) (l : RateLimiter.t)
    (calls : list (jsstring * Z)) : list Z :=
  map (fun p : (jsstring * Z) * bool => snd (fst p))
    (filter (fun p : (jsstring * Z) * bool => fst (fst p) = b /\ snd p = true)
       (zip calls (fst (RateLimiter.run l calls)))).

(** What the list stored for [b] has to do with the times [hist] admitted
    for [b] so far: no entry when there is none, otherwise some of them, in
    their order, the latest one last. *)
Definition records (b : jsstring) (l : RateLimiter.t) (hist : list Z) : Prop :=
  match RateLimiter.requests l !! b with
  | None => hist = []
  | Some ts => ts `sublist_of` hist /\ hist <> [] /\ last ts = last hist
  end.

(** The clock does not go back between the calls. *)
Definition monotone_clock (calls : list (jsstring * Z)) : Prop :=
  StronglySorted Z.le (map snd calls).

(** ** The users route and the table that calls it *)

Module Users.

(** [v || d] for [v] a string or [null]. *)
Definition or_else (v : option jsstring) (d : jsstring) : jsstring :=
  match v with
  | Some (c :: s) => c :: s
  | _ => d
  end.

(** The spread [...(value && { name: value })] in an object literal: one
    property when [value] is not empty, none otherwise. *)
Definition spread_if (name value : jsstring) : list (jsstring * jsstring) :=
  match value with
  | [] => []
  | _ :: _ => [(name, value)]
  end.

(** The entries of the [URLSearchParams] that [GET] builds, in the order of
    the properties of its object literal; [get] is [searchParams.get] of the
    request. *)
Definition GET_params (get : jsstring -> option jsstring) : list (jsstring * jsstring) :=
  let page := or_else (get (js "page")) (js "1") in
  let per_page := or_else (get (js "per_page")) (js "10") in
  let search := or_else (get (js "search")) [] in
  let role := or_else (get (js "role")) [] in
  [(js "page", page); (js "per_page", per_page)]
    ++ spread_if (js "search") search ++ spread_if (js "role") role.

(** [URLSearchParams.prototype.get] on a list of entries: the value of the
    first entry with the name, [null] when there is none. *)
Fixpoint params_get (entries : list (jsstring * jsstring)) (name : jsstring)
  : option jsstring :=
  match entries with
  | [] => None
  | (k, v) :: rest => if decide (k = name) then Some v else params_get rest name
  end.

(** [Number.prototype.toString] on an integer: its decimal digits, after a
    minus sign when it is negative. *)
Fixpoint digits (fuel : nat) (n : N) (acc : jsstring) : jsstring :=
  match fuel with
  | O => acc
  | S fuel' =>
      let acc' := (48 + n mod 10)%N :: acc in
      if (n / 10 =? 0)%N then acc' else digits fuel' (n / 10)%N acc'
  end.

Definition toString (z : Z) : jsstring :=
  let n := Z.abs_N z in
  let ds := digits (S (N.to_nat (N.log2 n))) n [] in
  if z <? 0 then 45%N :: ds else ds.

(** The entries of the [URLSearchParams] that [fetchUsers] of the table
    builds from its state. *)
Definition fetchUsers_params (page rowsPerPage : Z) (searchDebounce roleFilter : jsstring)
  : list (jsstring * jsstring) :=
  [(js "page", toString (page + 1)); (js "per_page", toString rowsPerPage)]
    ++ spread_if (js "search") searchDebounce ++ spread_if (js "role") roleFilter.

(** [getRoleColor] of the table. *)
Definition getRoleColor (role : jsstring) : jsstring :=
  if decide (role = js "admin") then js "error"
  else if decide (role = js "manager") then js "warning"
  else if decide (role = js "user") then js "primary"
  else js "default".

(** The literals of the [role] enumeration of [userValidationSchema]. *)
Definition roles : list jsstring := [js "admin"; js "user"; js "manager"].

End Users.

(** * Properties *)

(** ** Global replacement only deletes *)

Section ReplaceFacts.
Import Regex.
Variable r : Regex.t.

Lemma replace_from_sublist (k : nat) (s : jsstring) :
  replace_from r k s `sublist_of` s.
Proof.
  revert k; induction s as [|c s IH]; intros k; simpl.
  - constructor.
  - destruct k as [|k].
    + destruct (exec r (c :: s)) as [[|n]|].
      * apply sublist_skip, IH.
      * apply sublist_cons, IH.
      * apply sublist_skip, IH.
    + apply sublist_cons, IH.
Qed.

Lemma replace_all_sublist (s : jsstring) : replace_all r s `sublist_of` s.
Proof. apply replace_from_sublist. Qed.

Lemma replace_all_length (s : jsstring) :
  (length (replace_all r s) <= length s)%nat.
Proof. apply sublist_length, replace_all_sublist. Qed.

(** Without an occurrence the string comes back as it is. *)
Lemma replace_all_no_occurrence (s : jsstring) :
  occurs r s = false -> replace_all r s = s.
Proof.
  unfold replace_all.
  induction s as [|c s IH]; simpl; [reflexivity|].
  destruct (exec r (c :: s)) as [[|n]|]; intros H;
    try discriminate; f_equal; auto.
Qed.

(** With one the result is strictly shorter. *)
Lemma replace_all_occurrence (s : jsstring) :
  occurs r s = true -> (length (replace_all r s) < length s)%nat.
Proof.
  unfold replace_all.
  induction s as [|c s IH]; simpl; [discriminate|].
  destruct (exec r (c :: s)) as [[|n]|]; intros H.
  - simpl. apply IH in H. lia.
  - pose proof (sublist_length _ _ (replace_from_sublist n s)). lia.
  - simpl. apply IH in H. lia.
Qed.

Lemma replace_all_fixed_iff (s : jsstring) :
  replace_all r s = s <-> occurs r s = false.
Proof.
  split; [|apply replace_all_no_occurrence].
  intros E. destruct (occurs r s) eqn:O; [|reflexivity].
  apply replace_all_occurrence in O. rewrite E in O. lia.
Qed.

End ReplaceFacts.

(** ** Trimming *)

Lemma trim_start_sublist (s : jsstring) : trim_start s `sublist_of` s.
Proof.
  induction s as [|c s IH]; simpl; [constructor|].
  destruct (is_white_space c); [apply sublist_cons, IH | reflexivity].
Qed.

Lemma trim_start_suffix (s : jsstring) : exists k, s = k ++ trim_start s.
Proof.
  induction s as [|c s [k IH]]; simpl; [exists []; reflexivity|].
  destruct (is_white_space c).
  - exists (c :: k). simpl. f_equal. exact IH.
  - exists []. reflexivity.
Qed.

Lemma trim_end_prefix (s : jsstring) : exists k, s = trim_end s ++ k.
Proof.
  unfold trim_end. destruct (trim_start_suffix (rev s)) as [k E].
  exists (rev k). rewrite <- rev_app_distr, <- E. symmetry; apply rev_involutive.
Qed.

Lemma trim_end_sublist (s : jsstring) : trim_end s `sublist_of` s.
Proof.
  destruct (trim_end_prefix s) as [k E]. rewrite E at 2.
  apply sublist_inserts_r. reflexivity.
Qed.

Lemma trim_sublist (s : jsstring) : trim s `sublist_of` s.
Proof.
  unfold trim. etransitivity; [apply trim_end_sublist | apply trim_start_sublist].
Qed.

Lemma trim_length (s : jsstring) : (length (trim s) <= length s)%nat.
Proof. apply sublist_length, trim_sublist. Qed.

Lemma trim_start_idemp (s : jsstring) : trim_start (trim_start s) = trim_start s.
Proof.
  induction s as [|c s IH]; simpl; [reflexivity|].
  destruct (is_white_space c) eqn:W; [exact IH|]. simpl. rewrite W. reflexivity.
Qed.

Lemma trim_start_snoc (l : jsstring) (c : N) :
  is_white_space c = false -> trim_start (l ++ [c]) = trim_start l ++ [c].
Proof.
  intros W. induction l as [|x l IH]; simpl.
  - rewrite W. reflexivity.
  - destruct (is_white_space x); [exact IH | reflexivity].
Qed.

Lemma trim_end_cons (c : N) (s : jsstring) :
  is_white_space c = false -> trim_end (c :: s) = c :: trim_end s.
Proof.
  intros W. unfold trim_end. simpl rev at 2.
  rewrite trim_start_snoc by exact W.
  rewrite rev_app_distr. reflexivity.
Qed.

Lemma trim_end_idemp (s : jsstring) : trim_end (trim_end s) = trim_end s.
Proof.
  unfold trim_end. rewrite rev_involutive, trim_start_idemp. reflexivity.
Qed.

(** Trimming the end of a string that has no leading white space leaves it
    without leading white space. *)
Lemma trim_start_trim_end (s : jsstring) :
  trim_start s = s -> trim_start (trim_end s) = trim_end s.
Proof.
  destruct s as [|c s]; [reflexivity|]. simpl.
  destruct (is_white_space c) eqn:W.
  - intros E. pose proof (sublist_length _ _ (trim_start_sublist s)) as L.
    rewrite E in L. simpl in L. lia.
  - intros _. rewrite trim_end_cons by exact W. simpl. rewrite W. reflexivity.
Qed.

Lemma trim_idemp (s : jsstring) : trim (trim s) = trim s.
Proof.
  unfold trim.
  rewrite (trim_start_trim_end (trim_start s)) by apply trim_start_idemp.
  apply trim_end_idemp.
Qed.

Lemma Forall_sublist_of {A : Type} (P : A -> Prop) (l k : list A) :
  l `sublist_of` k -> Forall P k -> Forall P l.
Proof.
  induction 1 as [|x l k _ IH|x l k _ IH]; intros F.
  - constructor.
  - inversion F; subst. constructor; auto.
  - inversion F; subst. auto.
Qed.

(** ** The regular expressions of the source, read as the specification
       words them *)

Section RegexReadings.
Import Regex.

Lemma canonicalize_lower (a b : N) :
  (canonicalize a =? canonicalize b)%N = (Reference.lower a =? Reference.lower b)%N.
Proof.
  unfold canonicalize, Reference.lower.
  destruct (N.leb_spec 97 a), (N.leb_spec a 122),
           (N.leb_spec 97 b), (N.leb_spec b 122),
           (N.leb_spec 65 a), (N.leb_spec a 90),
           (N.leb_spec 65 b), (N.leb_spec b 90); simpl;
    try lia;
    match goal with
    | |- (?x =? ?y)%N = (?u =? ?v)%N =>
        destruct (N.eqb_spec x y), (N.eqb_spec u v); try reflexivity; lia
    end.
Qed.

Lemma char_eq_same_char (i : bool) (p c : N) :
  char_eq i p c = Reference.same_char i p c.
Proof.
  unfold char_eq, Reference.same_char.
  destruct i; [apply canonicalize_lower | reflexivity].
Qed.

Lemma replace_from_cons (r : Regex.t) (c : N) (s : jsstring) :
  replace_from r O (c :: s) =
    match exec r (c :: s) with
    | Some (S k) => replace_from r k s
    | _ => c :: replace_from r O s
    end.
Proof. reflexivity. Qed.

Lemma replace_from_skip (r : Regex.t) (k : nat) (s : jsstring) :
  replace_from r k s = replace_from r O (drop k s).
Proof.
  revert k; induction s as [|c s IH]; intros [|k]; try reflexivity.
  simpl replace_from at 1. rewrite IH. reflexivity.
Qed.

(** A character class deletes the characters it lists. *)
Lemma existsb_char_eq (cs : list N) (c : N) :
  existsb (fun p => (p =? c)%N) cs = existsb (N.eqb c) cs.
Proof.
  induction cs as [|x cs IH]; simpl; [reflexivity|].
  rewrite IH, (N.eqb_sym x c). reflexivity.
Qed.

Lemma exec_class (cs : list N) (c : N) (s : jsstring) :
  exec (mk [Class cs] false) (c :: s) =
    if existsb (N.eqb c) cs then Some 1%nat else None.
Proof.
  unfold exec. cbn [atoms ignoreCase match_here atom_matches char_eq].
  rewrite existsb_char_eq.
  destruct (existsb (N.eqb c) cs); reflexivity.
Qed.

Lemma replace_class (cs : list N) (s : jsstring) :
  replace_all (mk [Class cs] false) s = Reference.remove_chars cs s.
Proof.
  unfold replace_all, Reference.remove_chars.
  induction s as [|c s IH]; [reflexivity|].
  rewrite replace_from_cons, exec_class. simpl.
  destruct (existsb (N.eqb c) cs); simpl; rewrite IH; reflexivity.
Qed.

(** A literal matches where the string starts with it. *)
Lemma exec_literal (i : bool) (p s : jsstring) :
  exec (mk (map Char p) i) s =
    if Reference.starts_with i p s then Some (length p) else None.
Proof.
  unfold exec; simpl. revert s.
  induction p as [|x p IH]; intros s; simpl; [reflexivity|].
  destruct s as [|c s]; [reflexivity|].
  rewrite char_eq_same_char.
  destruct (Reference.same_char i x c); simpl; [|reflexivity].
  rewrite IH. destruct (Reference.starts_with i p s); reflexivity.
Qed.

Lemma replace_literal_fuel (i : bool) (p : jsstring) (fuel : nat) (s : jsstring) :
  p <> [] -> (length s <= fuel)%nat ->
  replace_all (mk (map Char p) i) s = Reference.remove_seq_fuel fuel i p s.
Proof.
  intros Hp. unfold replace_all. revert s.
  induction fuel as [|fuel IH]; intros s L.
  - destruct s; [reflexivity | simpl in L; lia].
  - destruct s as [|c s]; [reflexivity|].
    rewrite replace_from_cons, exec_literal.
    cbn [Reference.remove_seq_fuel].
    destruct (Reference.starts_with i p (c :: s)).
    + destruct p as [|x p]; [congruence|].
      cbn [length drop]. rewrite replace_from_skip. apply IH.
      rewrite length_drop. simpl in L. lia.
    + f_equal. apply IH. simpl in L. lia.
Qed.

Lemma replace_literal (i : bool) (pat : string) (s : jsstring) :
  js pat <> [] ->
  replace_all (literal i pat) s = Reference.remove_seq i pat s.
Proof.
  intros Hp. unfold literal, Reference.remove_seq.
  apply replace_literal_fuel; [exact Hp | lia].
Qed.

End RegexReadings.

(** ** The search-term sanitizer *)

(** The source pipeline is the pipeline of the specification once the
    semicolon is counted among the removed characters. *)
Lemma strip_injection_source (query : jsstring) :
  Regex.replace_all re_sp
    (Regex.replace_all re_xp
      (Regex.replace_all re_close_comment
        (Regex.replace_all re_open_comment
          (Regex.replace_all re_dashes
            (Regex.replace_all re_quotes query)))))
  = Reference.strip_injection [39; 34; 59; 92]%N query.
Proof.
  unfold re_sp, re_xp, re_close_comment, re_open_comment, re_dashes, re_quotes.
  unfold Reference.strip_injection.
  rewrite !replace_literal by discriminate.
  rewrite replace_class. reflexivity.
Qed.

(** C3, as the code has it: [validateSearchQuery] is the reference pipeline
    in which the first step removes single quotes, double quotes, backslashes
    and also semicolons; the later steps (remove "--", then the opening and the
    closing comment marker, then xp_ and sp_ whatever the case, keep at most
    100 code units, trim) are the ones of the specification, in its order. *)
Theorem validateSearchQuery_reference (query : jsstring) :
  validateSearchQuery query = Reference.sanitizeSearchTerm_semicolon query.
Proof.
  unfold validateSearchQuery, Reference.sanitizeSearchTerm_semicolon.
  rewrite strip_injection_source. reflexivity.
Qed.

(** C3 as stated fails: the pipeline that removes only the two quotes and the
    backslash keeps a semicolon, the source removes it. *)
Lemma validateSearchQuery_semicolon_differs :
  validateSearchQuery (js "a;b") = js "ab" /\
  Reference.sanitizeSearchTerm (js "a;b") = js "a;b" /\
  validateSearchQuery (js "a;b") <> Reference.sanitizeSearchTerm (js "a;b").
Proof. repeat split; vm_compute; congruence. Qed.

(** C8: the sanitized search term has at most 100 code units. *)
Theorem validateSearchQuery_length (query : jsstring) :
  (length (validateSearchQuery query) <= 100)%nat.
Proof.
  unfold validateSearchQuery.
  etransitivity; [apply trim_length|].
  rewrite length_take. lia.
Qed.

(** ** Idempotence of the sanitizers *)

Section Idempotence.
Import Regex.

Lemma strip_sublist (rs : list Regex.t) (s : jsstring) :
  strip rs s `sublist_of` s.
Proof.
  revert s; induction rs as [|r rs IH]; intros s; simpl; [reflexivity|].
  etransitivity; [apply IH | apply replace_all_sublist].
Qed.

Lemma strip_length (rs : list Regex.t) (s : jsstring) :
  (length (strip rs s) <= length s)%nat.
Proof. apply sublist_length, strip_sublist. Qed.

Lemma strip_fixed_or_shorter (rs : list Regex.t) (s : jsstring) :
  if none_occurs rs s then strip rs s = s
  else (length (strip rs s) < length s)%nat.
Proof.
  revert s; induction rs as [|r rs IH]; intros s; simpl; [reflexivity|].
  destruct (occurs r s) eqn:O; simpl.
  - apply replace_all_occurrence in O.
    pose proof (strip_length rs (replace_all r s)). unfold strip in *. lia.
  - rewrite (replace_all_no_occurrence r s O). apply IH.
Qed.

(** What a class has removed stays removed in every sublist. *)
Lemma replace_class_clean (cs : list N) (s t : jsstring) :
  t `sublist_of` replace_all (mk [Class cs] false) s ->
  replace_all (mk [Class cs] false) t = t.
Proof.
  intros Sub. rewrite replace_class in *.
  unfold Reference.remove_chars in *.
  apply forallb_filter_id. apply forallb_forall. intros c Hc.
  assert (F : Forall (fun c => negb (existsb (N.eqb c) cs) = true) t).
  { eapply Forall_sublist_of; [exact Sub|].
    apply List.Forall_forall. intros x Hx. apply filter_In in Hx. tauto. }
  rewrite List.Forall_forall in F. auto.
Qed.

Lemma sanitizeText_fixed_or_shorter (s : jsstring) :
  let t := sanitizeText s in
  if occurs re_javascript t then (length (sanitizeText t) < length t)%nat
  else sanitizeText t = t.
Proof.
  intros t.
  assert (A : replace_all re_angle t = t).
  { apply (replace_class_clean _ s). unfold t, sanitizeText.
    etransitivity; [apply trim_sublist | apply replace_all_sublist]. }
  assert (E : sanitizeText t = trim (replace_all re_javascript t)).
  { unfold sanitizeText at 1. rewrite A. reflexivity. }
  rewrite E. clear E.
  destruct (occurs re_javascript t) eqn:O.
  - apply replace_all_occurrence in O.
    pose proof (trim_length (replace_all re_javascript t)). lia.
  - rewrite (replace_all_no_occurrence _ _ O). apply trim_idemp.
Qed.

Lemma trim_take_length (n : nat) (s : jsstring) :
  (length (trim (take n s)) <= n)%nat.
Proof. etransitivity; [apply trim_length|]. rewrite length_take. lia. Qed.

Lemma validateSearchQuery_strip (s : jsstring) :
  validateSearchQuery s =
    trim (take 100 (strip search_patterns (replace_all re_quotes s))).
Proof. reflexivity. Qed.

Lemma validateSearchQuery_fixed_or_shorter (s : jsstring) :
  let t := validateSearchQuery s in
  if none_occurs search_patterns t then validateSearchQuery t = t
  else (length (validateSearchQuery t) < length t)%nat.
Proof.
  intros t.
  assert (A : replace_all re_quotes t = t).
  { apply (replace_class_clean _ s). unfold t.
    rewrite validateSearchQuery_strip.
    etransitivity; [apply trim_sublist|].
    etransitivity; [apply sublist_take | apply strip_sublist]. }
  rewrite (validateSearchQuery_strip t), A.
  pose proof (strip_fixed_or_shorter search_patterns t) as H.
  destruct (none_occurs search_patterns t).
  - rewrite H, take_ge by apply trim_take_length.
    apply trim_idemp.
  - pose proof (trim_length (take 100 (strip search_patterns t))).
    rewrite length_take in *. lia.
Qed.

(** A second application changes the result exactly when the first one
    has left behind a pattern that the function is written to delete
    (javascript: in any case for [sanitizeText]; "--", the two comment
    markers, xp_ and sp_ in any case for [validateSearchQuery]): each
    replacement is a single pass, and deleting one occurrence can join the
    text around it into a new one. *)
Theorem sanitizers_idempotent_iff (s : jsstring) :
  (sanitizeText (sanitizeText s) = sanitizeText s
     <-> occurs re_javascript (sanitizeText s) = false) /\
  (validateSearchQuery (validateSearchQuery s) = validateSearchQuery s
     <-> none_occurs search_patterns (validateSearchQuery s) = true).
Proof.
  split.
  - pose proof (sanitizeText_fixed_or_shorter s) as H. cbv zeta in H.
    destruct (occurs re_javascript (sanitizeText s)).
    + split; [|discriminate]. intros E. rewrite E in H. lia.
    + split; auto.
  - pose proof (validateSearchQuery_fixed_or_shorter s) as H. cbv zeta in H.
    destruct (none_occurs search_patterns (validateSearchQuery s)).
    + split; auto.
    + split; [|discriminate]. intros E. rewrite E in H. lia.
Qed.

End Idempotence.

(** C1: idempotence fails in the code for two of the three functions. At
    these inputs the result of one application still holds the pattern that
    the source says it removes ("Remove javascript: protocols", "Remove SQL
    comments"), and a second application deletes it, so the two results
    differ. *)
Lemma sanitizers_not_idempotent :
  (sanitizeText (js "javajavascript:script:") = js "javascript:" /\
   sanitizeText (sanitizeText (js "javajavascript:script:")) = [] /\
   sanitizeText (sanitizeText (js "javajavascript:script:"))
     <> sanitizeText (js "javajavascript:script:")) /\
  (validateSearchQuery (js "a-/*-b") = js "a--b" /\
   validateSearchQuery (validateSearchQuery (js "a-/*-b")) = js "ab" /\
   validateSearchQuery (validateSearchQuery (js "a-/*-b"))
     <> validateSearchQuery (js "a-/*-b")).
Proof. repeat split; vm_compute; congruence. Qed.

(** Strings the sanitizers fix at the first pass. *)
Example sanitizeText_twice :
  sanitizeText (sanitizeText (js " <b>Hello</b> JavaScript:x "))
  = sanitizeText (js " <b>Hello</b> JavaScript:x ").
Proof. reflexivity. Qed.

Example validateSearchQuery_twice :
  validateSearchQuery (validateSearchQuery (js "admin'; DROP TABLE users; --"))
  = validateSearchQuery (js "admin'; DROP TABLE users; --").
Proof. reflexivity. Qed.

(** ** Rate limiter *)

Section LimiterFacts.
Import RateLimiter.

(** The two outcomes of the test [recentRequests.length >= maxRequests]. *)
Lemma limit_reached (m : Q) (n : nat) :
  Qle_bool m (inject_Z (Z.of_nat n)) = true <-> (m <= inject_Z (Z.of_nat n))%Q.
Proof. apply Qle_bool_iff. Qed.

Lemma limit_not_reached (m : Q) (n : nat) :
  Qle_bool m (inject_Z (Z.of_nat n)) = false <-> (inject_Z (Z.of_nat n) < m)%Q.
Proof.
  rewrite <- not_true_iff_false, limit_reached. split.
  - apply Qnot_le_lt.
  - apply Qlt_not_le.
Qed.

(** Below a whole ceiling. *)
Lemma below_whole (k : Z) (n : nat) :
  Z.of_nat n < k -> (inject_Z (Z.of_nat n) < inject_Z k)%Q.
Proof. intros H. rewrite <- Zlt_Qlt. exact H. Qed.

Lemma call_rejects (l : RateLimiter.t) (identifier : jsstring) (now : Z) :
  (maxRequests l <= inject_Z (Z.of_nat (length (recentRequests l identifier now))))%Q ->
  call l identifier now = (false, l).
Proof. intros H. unfold call. by rewrite (proj2 (limit_reached _ _) H). Qed.

Lemma call_admits (l : RateLimiter.t) (identifier : jsstring) (now : Z) :
  (inject_Z (Z.of_nat (length (recentRequests l identifier now))) < maxRequests l)%Q ->
  call l identifier now =
    (true, mk (windowMs l) (maxRequests l)
             (<[identifier := recentRequests l identifier now ++ [now]]> (requests l))).
Proof. intros H. unfold call. by rewrite (proj2 (limit_not_reached _ _) H). Qed.

Lemma call_config (l : RateLimiter.t) (identifier : jsstring) (now : Z) :
  windowMs (snd (call l identifier now)) = windowMs l /\
  maxRequests (snd (call l identifier now)) = maxRequests l.
Proof. unfold call. destruct (Qle_bool _ _); done. Qed.

Lemma call_other (l : RateLimiter.t) (a b : jsstring) (now : Z) :
  a <> b -> requests (snd (call l a now)) !! b = requests l !! b.
Proof.
  intros Hab. unfold call. destruct (Qle_bool _ _); simpl; [done|].
  by rewrite lookup_insert_ne.
Qed.

Lemma run_cons (l : RateLimiter.t) (identifier : jsstring) (now : Z)
    (rest : list (jsstring * Z)) :
  run l ((identifier, now) :: rest) =
    (fst (call l identifier now) :: fst (run (snd (call l identifier now)) rest),
     snd (run (snd (call l identifier now)) rest)).
Proof.
  simpl. destruct (call l identifier now) as [answer l']. simpl.
  destruct (run l' rest) as [answers l'']. reflexivity.
Qed.

Lemma answers_for_cons (b : jsstring) (l : RateLimiter.t) (identifier : jsstring)
    (now : Z) (rest : list (jsstring * Z)) :
  answers_for b l ((identifier, now) :: rest) =
    if decide (identifier = b)
    then fst (call l identifier now) :: answers_for b (snd (call l identifier now)) rest
    else answers_for b (snd (call l identifier now)) rest.
Proof.
  unfold answers_for. rewrite run_cons. cbn [map fst zip zip_with].
  rewrite filter_cons. cbn [fst]. case_decide; reflexivity.
Qed.

Lemma call_agree_same (b : jsstring) (l1 l2 : RateLimiter.t) (now : Z) :
  agree_on b l1 l2 ->
  fst (call l1 b now) = fst (call l2 b now) /\
  agree_on b (snd (call l1 b now)) (snd (call l2 b now)).
Proof.
  intros (Hw & Hm & Hr). unfold call, recentRequests, agree_on.
  rewrite Hw, Hm, Hr. destruct (Qle_bool _ _); simpl.
  - done.
  - by rewrite !lookup_insert_eq.
Qed.

Lemma call_agree_other (a b : jsstring) (l1 l2 : RateLimiter.t) (now : Z) :
  a <> b -> agree_on b l1 l2 ->
  agree_on b (snd (call l1 a now)) (snd (call l2 a now)).
Proof.
  intros Hab (Hw & Hm & Hr). unfold agree_on.
  destruct (call_config l1 a now) as [-> ->].
  destruct (call_config l2 a now) as [-> ->].
  by rewrite !call_other.
Qed.

Lemma answers_for_agree (b : jsstring) (calls : list (jsstring * Z))
    (l1 l2 : RateLimiter.t) :
  agree_on b l1 l2 ->
  answers_for b l1 calls = answers_for b l2 calls /\
  requests (snd (run l1 calls)) !! b = requests (snd (run l2 calls)) !! b.
Proof.
  revert l1 l2. induction calls as [|[identifier now] rest IH]; intros l1 l2 A.
  - split; [reflexivity | apply A].
  - rewrite !answers_for_cons, !run_cons. cbn [snd].
    case_decide as E.
    + subst identifier. destruct (call_agree_same b l1 l2 now A) as [-> A'].
      destruct (IH _ _ A') as [-> ->]. done.
    + apply IH. by apply call_agree_other.
Qed.

(** The answers to [b] are those of the run that keeps only the calls of
    [b]. *)
Lemma answers_for_own_calls (b : jsstring) (calls : list (jsstring * Z))
    (l : RateLimiter.t) :
  answers_for b l calls
  = answers_for b l (filter (fun c : jsstring * Z => fst c = b) calls).
Proof.
  revert l. induction calls as [|[identifier now] rest IH]; intros l.
  - reflexivity.
  - rewrite answers_for_cons, filter_cons. cbn [fst].
    case_decide as E.
    + subst identifier. rewrite answers_for_cons, decide_True by reflexivity.
      f_equal. apply IH.
    + rewrite <- IH. apply answers_for_agree. unfold agree_on.
      destruct (call_config l identifier now) as [-> ->].
      by rewrite call_other.
Qed.

(** The invariant behind the bound on the stored lists. *)
Lemma call_bounded (l : RateLimiter.t) (identifier : jsstring) (now : Z) :
  map_Forall (fun _ ts => (inject_Z (Z.of_nat (length ts)) < maxRequests l + 1)%Q)
    (requests l) ->
  map_Forall (fun _ ts => (inject_Z (Z.of_nat (length ts)) < maxRequests l + 1)%Q)
    (requests (snd (call l identifier now))).
Proof.
  intros Inv. unfold call.
  destruct (Qle_bool _ _) eqn:H; simpl; [exact Inv|].
  apply limit_not_reached in H.
  apply map_Forall_insert_2; [|exact Inv].
  rewrite length_app, Nat2Z.inj_add, inject_Z_plus.
  change (inject_Z (Z.of_nat (length [now]))) with 1%Q. lra.
Qed.

Lemma run_bounded (calls : list (jsstring * Z)) (l : RateLimiter.t) :
  map_Forall (fun _ ts => (inject_Z (Z.of_nat (length ts)) < maxRequests l + 1)%Q)
    (requests l) ->
  maxRequests (snd (run l calls)) = maxRequests l /\
  map_Forall (fun _ ts => (inject_Z (Z.of_nat (length ts)) < maxRequests l + 1)%Q)
    (requests (snd (run l calls))).
Proof.
  revert l. induction calls as [|[identifier now] rest IH]; intros l Inv.
  - split; [reflexivity | exact Inv].
  - rewrite run_cons. cbn [snd].
    destruct (call_config l identifier now) as [_ Hm].
    pose proof (call_bounded l identifier now Inv) as Inv'.
    rewrite <- Hm in Inv'. destruct (IH _ Inv') as [E F].
    rewrite E, Hm in *. split; [reflexivity | exact F].
Qed.

(** A count below a whole ceiling plus one is at most the ceiling. *)
Lemma whole_ceiling (m : Q) (k : Z) (n : nat) :
  (m == inject_Z k)%Q -> (inject_Z (Z.of_nat n) < m + 1)%Q -> Z.of_nat n <= k.
Proof.
  intros E H. rewrite E in H.
  change 1%Q with (inject_Z 1) in H. rewrite <- inject_Z_plus, <- Zlt_Qlt in H.
  lia.
Qed.

(** C4: a rejected call answers [false] and hands back the limiter it was
    given, map included, so no list of any identifier changes and every later
    run goes on as if the call had not been made. *)
Theorem rejected_call_not_recorded (l : RateLimiter.t) (identifier : jsstring) (now : Z) :
  (maxRequests l <= inject_Z (Z.of_nat (length (recentRequests l identifier now))))%Q ->
  fst (call l identifier now) = false /\
  requests (snd (call l identifier now)) = requests l /\
  forall calls, run (snd (call l identifier now)) calls = run l calls.
Proof. intros H. rewrite (call_rejects l identifier now H). done. Qed.

Lemma rejected_call_not_recorded_witness :
  let l := snd (run (createRateLimiter 1000 3)
                  [(js "a", 0); (js "a", 1); (js "a", 2)]) in
  (maxRequests l <= inject_Z (Z.of_nat (length (recentRequests l (js "a") 3))))%Q /\
  fst (call l (js "a") 3) = false /\
  requests (snd (call l (js "a") 3)) = requests l.
Proof.
  intros l.
  assert (H : (maxRequests l
                 <= inject_Z (Z.of_nat (length (recentRequests l (js "a") 3))))%Q)
    by (vm_compute; discriminate).
  destruct (rejected_call_not_recorded l (js "a") 3 H) as (A & B & _).
  exact (conj H (conj A B)).
Defined.

(** C7: a call for [a] leaves the list stored for another identifier [b] as
    it was, and the answers that any later sequence of calls gives to [b], and
    the list it leaves for [b], are those it would give without that call. *)
Theorem limiter_isolation (a b : jsstring) (l : RateLimiter.t) (now : Z)
    (calls : list (jsstring * Z)) :
  a <> b ->
  requests (snd (call l a now)) !! b = requests l !! b /\
  answers_for b (snd (call l a now)) calls = answers_for b l calls /\
  requests (snd (run (snd (call l a now)) calls)) !! b
    = requests (snd (run l calls)) !! b.
Proof.
  intros Hab. split; [by apply call_other|].
  apply answers_for_agree. unfold agree_on.
  destruct (call_config l a now) as [-> ->]. by rewrite call_other.
Qed.

Lemma limiter_isolation_witness :
  let l := snd (run (createRateLimiter 1000 1) [(js "b", 0)]) in
  js "a" <> js "b" /\
  requests (snd (call l (js "a") 5)) !! js "b" = Some [0] /\
  answers_for (js "b") (snd (call l (js "a") 5)) [(js "b", 10); (js "a", 20); (js "b", 1000)]
    = [false; true].
Proof.
  intros l.
  assert (Hab : js "a" <> js "b") by (vm_compute; discriminate).
  destruct (limiter_isolation (js "a") (js "b") l 5
              [(js "b", 10); (js "a", 20); (js "b", 1000)] Hab) as (A & B & _).
  split; [exact Hab|]. split.
  - rewrite A. vm_compute. reflexivity.
  - rewrite B. vm_compute. reflexivity.
Defined.

(** C10, as the code has it: after any sequence of calls on a limiter
    made by [createRateLimiter windowMs maxRequests], every stored list has
    fewer than [maxRequests + 1] timestamps, so at most [maxRequests] of them
    when [maxRequests] is a whole number. *)
Theorem stored_lists_bounded (windowMs : Z) (maxRequests : Q)
    (calls : list (jsstring * Z)) (identifier : jsstring) (ts : list Z) :
  requests (snd (run (createRateLimiter windowMs maxRequests) calls)) !! identifier
    = Some ts ->
  (inject_Z (Z.of_nat (length ts)) < maxRequests + 1)%Q /\
  forall k : Z, (maxRequests == inject_Z k)%Q -> Z.of_nat (length ts) <= k.
Proof.
  intros H.
  destruct (run_bounded calls (createRateLimiter windowMs maxRequests)) as [_ F].
  { apply map_Forall_empty. }
  pose proof (F identifier ts H) as B. cbn [RateLimiter.maxRequests createRateLimiter] in B.
  split; [exact B|]. intros k E. by apply (whole_ceiling maxRequests).
Qed.

Lemma stored_lists_bounded_witness :
  requests (snd (run (createRateLimiter 1000 2)
                   [(js "a", 0); (js "a", 1); (js "a", 2); (js "a", 1000)]))
    !! js "a" = Some [1; 1000] /\
  Z.of_nat (length [1; 1000]) <= 2.
Proof.
  assert (H : requests (snd (run (createRateLimiter 1000 2)
                [(js "a", 0); (js "a", 1); (js "a", 2); (js "a", 1000)]))
              !! js "a" = Some [1; 1000]) by (vm_compute; reflexivity).
  split; [exact H|].
  exact (proj2 (stored_lists_bounded 1000 2 _ (js "a") [1; 1000] H) 2 (Qeq_refl _)).
Defined.

(** C10 as stated fails for a ceiling that is not whole: with
    [maxRequests = 2.5] the lengths 0, 1 and 2 are all below the ceiling, so
    a third timestamp is stored. *)
Lemma stored_list_exceeds_fractional_ceiling :
  requests (snd (run (createRateLimiter 1000 (5 # 2))
                   [(js "a", 0); (js "a", 1); (js "a", 2)]))
    !! js "a" = Some [0; 1; 2] /\
  ~ (inject_Z (Z.of_nat (length [0; 1; 2])) <= 5 # 2)%Q.
Proof. split; [vm_compute; reflexivity | vm_compute; congruence]. Qed.

(** The list a call reads for its identifier. *)
Lemma recentRequests_insert (w : Z) (m : Q) (rs : gmap (list N) (list Z))
    (identifier : jsstring) (ts : list Z) (now : Z) :
  recentRequests (mk w m (<[identifier := ts]> rs)) identifier now
  = filter (fun time => now - w < time) ts.
Proof. unfold recentRequests. simpl. by rewrite lookup_insert_eq. Qed.

(** C2: with [windowMs = 1000] and [maxRequests = 3], four calls of one
    identifier at times [t1 <= t2 <= t3 <= t4] less than 1000 ms apart are
    answered true, true, true, false, and a fifth call once 1000 ms or more
    have passed since the first (at [t1 + 1001], say) is answered true. *)
Theorem limiter_exactness (identifier : jsstring) (t1 t2 t3 t4 t5 : Z) :
  t1 <= t2 -> t2 <= t3 -> t3 <= t4 -> t4 - t1 < 1000 -> t1 + 1000 <= t5 ->
  fst (run (createRateLimiter 1000 3)
         [(identifier, t1); (identifier, t2); (identifier, t3);
          (identifier, t4); (identifier, t5)])
  = [true; true; true; false; true].
Proof.
  intros H12 H23 H34 H41 H15.
  unfold createRateLimiter.
  assert (E0 : recentRequests (mk 1000 3 ∅) identifier t1 = []).
  { unfold recentRequests. simpl. by rewrite lookup_empty. }
  rewrite run_cons, call_admits; cbn [fst snd];
    rewrite E0; [|by apply (below_whole 3)].
  cbn [app].
  assert (E1 : filter (fun time => t2 - 1000 < time) [t1] = [t1]).
  { rewrite filter_cons_True by lia. done. }
  rewrite run_cons, call_admits; cbn [fst snd windowMs maxRequests requests];
    rewrite recentRequests_insert, E1; [|by apply (below_whole 3)].
  rewrite insert_insert_eq. cbn [app].
  assert (E2 : filter (fun time => t3 - 1000 < time) [t1; t2] = [t1; t2]).
  { rewrite !filter_cons_True by lia. done. }
  rewrite run_cons, call_admits; cbn [fst snd windowMs maxRequests requests];
    rewrite recentRequests_insert, E2; [|by apply (below_whole 3)].
  rewrite insert_insert_eq. cbn [app].
  assert (E3 : filter (fun time => t4 - 1000 < time) [t1; t2; t3] = [t1; t2; t3]).
  { rewrite !filter_cons_True by lia. done. }
  rewrite run_cons, call_rejects; cbn [fst snd windowMs maxRequests requests];
    [|rewrite recentRequests_insert, E3; apply Qle_refl].
  assert (L5 : (length (filter (fun time => (t5 - 1000 < time)%Z) [t1; t2; t3]) <= 2)%nat).
  { rewrite filter_cons_False by lia. apply length_filter. }
  rewrite run_cons, call_admits; cbn [fst snd windowMs maxRequests requests];
    [|rewrite recentRequests_insert; apply (below_whole 3); lia].
  reflexivity.
Qed.

Lemma limiter_exactness_witness :
  fst (run (createRateLimiter 1000 3)
         [(js "ip", 5000); (js "ip", 5010); (js "ip", 5020);
          (js "ip", 5999); (js "ip", 6001)])
  = [true; true; true; false; true].
Proof. apply (limiter_exactness (js "ip") 5000 5010 5020 5999 6001); lia. Defined.

(** At the edge of the window: a timestamp exactly [windowMs] old is no
    longer recent, so a fourth call 1000 ms after the first is admitted. *)
Example limiter_window_edge :
  fst (run (createRateLimiter 1000 3)
         [(js "ip", 0); (js "ip", 1); (js "ip", 2); (js "ip", 1000)])
  = [true; true; true; true].
Proof. vm_compute. reflexivity. Qed.

End LimiterFacts.

(** ** Validation *)

Section ValidationFacts.
Import Validation.

Lemma visit_messages (input : gmap (list N) value) (schema : RecordSchema)
    (acc : gmap (list N) value * list jsstring) :
  snd (foldl (visit input) acc schema) = snd acc ++ field_failures schema input.
Proof.
  revert acc. induction schema as [|[key f] schema IH]; intros acc; simpl.
  - by rewrite app_nil_r.
  - rewrite IH. unfold visit. cbn [fst snd].
    destruct (check_field f (input !! key)); cbn [snd]; try reflexivity.
    by rewrite <- app_assoc.
Qed.

Lemma visit_keys (input : gmap (list N) value) (schema : RecordSchema)
    (acc : gmap (list N) value * list jsstring) (k : jsstring) :
  k ∉ map fst schema ->
  fst (foldl (visit input) acc schema) !! k = fst acc !! k.
Proof.
  revert acc. induction schema as [|[key f] schema IH]; intros acc Hk; simpl.
  - reflexivity.
  - cbn [map fst] in Hk. apply not_elem_of_cons in Hk as [Hne Hk].
    rewrite IH by exact Hk. unfold visit. cbn [fst snd].
    destruct (check_field f (input !! key)); cbn [fst]; try reflexivity.
    by rewrite lookup_insert_ne.
Qed.

Lemma validate_messages (schema : RecordSchema) (input : gmap (list N) value) :
  match validate schema input with
  | Success _ => field_failures schema input = []
  | Failure messages => messages = field_failures schema input /\ messages <> []
  end.
Proof.
  unfold validate.
  pose proof (visit_messages input schema (∅, [])) as H. cbn [snd app] in H.
  destruct (foldl (visit input) (∅, []) schema) as [output messages].
  cbn [snd] in H. subst messages.
  destruct (field_failures schema input); [reflexivity | split; congruence].
Qed.

(** The adapter turns the issues of a [ZodError] into one [Error]. *)
Lemma validateApiInput_zod {T : Type} (parse : gmap (list N) value -> completion T)
    (input : gmap (list N) value) (errors : list ZodIssue) :
  parse input = Throw (ZodError errors) ->
  validateApiInput parse input =
    Throw (Error (js "Validation failed: " ++ join (js ", ") (map message errors))).
Proof. intros H. unfold validateApiInput. rewrite H. reflexivity. Qed.

(** C5: when validation fails, the recorded messages are the failures of all
    the failing fields, in the order of the schema, and [validateApiInput]
    throws one [Error] whose message is "Validation failed: " followed by
    all of them joined with ", "; it returns no record. *)
Theorem validation_failures_batched (schema : RecordSchema)
    (input : gmap (list N) value) (messages : list jsstring) :
  validate schema input = Failure messages ->
  messages = field_failures schema input /\
  messages <> [] /\
  validateApiInput (parse schema) input =
    Throw (Error (js "Validation failed: " ++ join (js ", ") messages)) /\
  forall record, validateApiInput (parse schema) input <> Return record.
Proof.
  intros H. pose proof (validate_messages schema input) as M. rewrite H in M.
  destruct M as [E Hne].
  assert (A : validateApiInput (parse schema) input =
                Throw (Error (js "Validation failed: " ++ join (js ", ") messages))).
  { rewrite (validateApiInput_zod _ _ (map mkIssue messages)).
    - rewrite map_map. cbn [message]. by rewrite map_id.
    - unfold parse. by rewrite H. }
  repeat split; try assumption. intros record. rewrite A. discriminate.
Qed.

Lemma validation_failures_batched_witness :
  validate (name_email_schema has_at_sign) input_invalid
    = Failure [js "Name is required"; js "Invalid email format"] /\
  validateApiInput (parse (name_email_schema has_at_sign)) input_invalid
    = Throw (Error (js "Validation failed: Name is required, Invalid email format")).
Proof.
  assert (H : validate (name_email_schema has_at_sign) input_invalid
              = Failure [js "Name is required"; js "Invalid email format"])
    by (vm_compute; reflexivity).
  destruct (validation_failures_batched _ _ _ H) as (_ & _ & A & _).
  split; [exact H|]. rewrite A. vm_compute. reflexivity.
Defined.

Lemma validate_success_keys (schema : RecordSchema)
    (input output : gmap (list N) value) (k : jsstring) :
  validate schema input = Success output ->
  k ∉ map fst schema -> output !! k = None.
Proof.
  unfold validate. intros H Hk.
  pose proof (visit_keys input schema (∅, []) k Hk) as V. cbn [fst] in V.
  destruct (foldl (visit input) (∅, []) schema) as [out messages].
  destruct messages; [|discriminate]. injection H as <-.
  cbn [fst] in V. rewrite V. apply lookup_empty.
Qed.

Lemma validate_name_email (is_email : jsstring -> bool) :
  is_email (js "y@z.com") = true ->
  validate (name_email_schema is_email) input_with_admin =
    Success (<[js "email" := VString (js "y@z.com")]>
              (<[js "name" := VString (js "x")]> ∅)).
Proof.
  intros Hmail.
  assert (Hn : input_with_admin !! js "name" = Some (VString (js "x")))
    by (vm_compute; reflexivity).
  assert (He : input_with_admin !! js "email" = Some (VString (js "y@z.com")))
    by (vm_compute; reflexivity).
  unfold validate, name_email_schema. cbn [foldl].
  unfold visit at 2. cbn [fst snd]. rewrite Hn.
  unfold check_field at 1. cbn [kind name_field first_failure].
  replace (min_length 1 (js "x")) with true by (vm_compute; reflexivity).
  replace (max_length 100 (js "x")) with true by (vm_compute; reflexivity).
  replace (name_pattern (js "x")) with true by (vm_compute; reflexivity).
  unfold visit. cbn [fst snd]. rewrite He.
  unfold check_field. cbn [kind email_field first_failure]. rewrite Hmail.
  replace (max_length 100 (js "y@z.com")) with true by (vm_compute; reflexivity).
  reflexivity.
Qed.

(** C6: a key of the input that the schema does not name is not in the
    record of a successful validation; with the fields [name] and [email] and
    the input [{name: "x", email: "y@z.com", admin: true}] (the address
    being one the email format accepts) the record holds [name] and [email]
    and nothing under [admin]. *)
Theorem validate_allow_list :
  (forall (schema : RecordSchema) (input output : gmap (list N) value) (k : jsstring),
     validate schema input = Success output ->
     k ∉ map fst schema -> output !! k = None) /\
  (forall is_email : jsstring -> bool,
     is_email (js "y@z.com") = true ->
     exists output : gmap (list N) value,
       validate (name_email_schema is_email) input_with_admin = Success output /\
       input_with_admin !! js "admin" = Some (VBoolean true) /\
       output !! js "admin" = None /\
       dom output = {[js "name"; js "email"]} /\
       output !! js "name" = Some (VString (js "x")) /\
       output !! js "email" = Some (VString (js "y@z.com"))).
Proof.
  split; [exact validate_success_keys|].
  intros is_email Hmail. eexists. split; [exact (validate_name_email is_email Hmail)|].
  repeat split; vm_compute; reflexivity.
Qed.

Lemma validate_allow_list_witness :
  has_at_sign (js "y@z.com") = true /\
  (js "admin" ∉ map fst (name_email_schema has_at_sign)) /\
  exists output : gmap (list N) value,
    validate (name_email_schema has_at_sign) input_with_admin = Success output /\
    output !! js "admin" = None.
Proof.
  assert (Hmail : has_at_sign (js "y@z.com") = true) by reflexivity.
  assert (Hk : js "admin" ∉ map fst (name_email_schema has_at_sign))
    by (vm_compute; intros Hin; repeat (apply elem_of_cons in Hin as [Hin|Hin];
          [discriminate Hin|]); inversion Hin).
  destruct (proj2 validate_allow_list has_at_sign Hmail) as (output & H & _).
  split; [exact Hmail|]. split; [exact Hk|]. exists output. split; [exact H|].
  exact (proj1 validate_allow_list _ _ _ _ H Hk).
Defined.

End ValidationFacts.


(** * Further properties of the code *)

(** ** What the sanitizers return *)

Section SanitizerFacts.
Import Regex.

Lemma trim_start_head (s : jsstring) (c : N) :
  head (trim_start s) = Some c -> is_white_space c = false.
Proof.
  induction s as [|x s IH]; simpl; [discriminate|].
  destruct (is_white_space x) eqn:W; [exact IH|].
  simpl. intros [= <-]. exact W.
Qed.

Lemma trim_head (s : jsstring) (c : N) :
  head (trim s) = Some c -> is_white_space c = false.
Proof.
  intros H. apply (trim_start_head (trim s)).
  unfold trim in *. rewrite trim_start_trim_end by apply trim_start_idemp.
  exact H.
Qed.

Lemma trim_last (s : jsstring) (c : N) :
  last (trim s) = Some c -> is_white_space c = false.
Proof.
  unfold trim, trim_end.
  destruct (trim_start (rev (trim_start s))) as [|x l] eqn:E; simpl.
  - discriminate.
  - rewrite last_snoc. intros [= <-].
    apply (trim_start_head (rev (trim_start s))). by rewrite E.
Qed.

Lemma trim_start_blank (s : jsstring) :
  Forall (fun c => is_white_space c = true) s -> trim_start s = [].
Proof. induction 1 as [|c s W _ IH]; simpl; [reflexivity|]. by rewrite W. Qed.

Lemma trim_blank (s : jsstring) :
  Forall (fun c => is_white_space c = true) s -> trim s = [].
Proof. intros H. unfold trim. by rewrite trim_start_blank. Qed.

(** Both sanitizers trim a string obtained from the input by deletions. *)
Lemma sanitizeText_sublist (s : jsstring) : sanitizeText s `sublist_of` s.
Proof.
  unfold sanitizeText.
  etransitivity; [apply trim_sublist|].
  etransitivity; apply replace_all_sublist.
Qed.

Lemma validateSearchQuery_sublist (s : jsstring) :
  validateSearchQuery s `sublist_of` s.
Proof.
  rewrite validateSearchQuery_strip.
  etransitivity; [apply trim_sublist|].
  etransitivity; [apply sublist_take|].
  etransitivity; [apply strip_sublist | apply replace_all_sublist].
Qed.

Lemma replace_class_Forall (cs : list N) (s : jsstring) :
  Forall (fun c => c ∉ cs) (replace_all (mk [Class cs] false) s).
Proof.
  rewrite replace_class. unfold Reference.remove_chars.
  apply List.Forall_forall. intros c Hc. apply filter_In in Hc as [_ Hc].
  apply negb_true_iff in Hc. intros Hin.
  assert (E : existsb (N.eqb c) cs = true); [|congruence].
  apply existsb_exists. exists c. split; [by apply list_elem_of_In | apply N.eqb_refl].
Qed.

Lemma replace_class_fixed (cs : list N) (s : jsstring) :
  Forall (fun c => c ∉ cs) s -> replace_all (mk [Class cs] false) s = s.
Proof.
  intros F. rewrite replace_class. unfold Reference.remove_chars.
  apply forallb_filter_id, forallb_forall. intros c Hc.
  rewrite List.Forall_forall in F. specialize (F c Hc).
  apply negb_true_iff. destruct (existsb (N.eqb c) cs) eqn:E; [|reflexivity].
  apply existsb_exists in E as (x & Hx & Hcx). apply N.eqb_eq in Hcx. subst x.
  exfalso. apply F. by apply list_elem_of_In.
Qed.

(** X1: the result of [sanitizeText] holds no angle bracket. *)
Theorem sanitizeText_no_angle (text : jsstring) :
  Forall (fun c => c <> 60%N /\ c <> 62%N) (sanitizeText text).
Proof.
  assert (F : Forall (fun c => c ∉ js "<>") (sanitizeText text)).
  { eapply Forall_sublist_of; [|apply (replace_class_Forall (js "<>") text)].
    unfold sanitizeText.
    etransitivity; [apply trim_sublist | apply replace_all_sublist]. }
  eapply Forall_impl; [exact F|]. intros c Hc. cbv beta in Hc.
  split; intros ->; apply Hc; vm_compute; set_solver.
Qed.

(** X2: the result of [validateSearchQuery] holds no single quote, double
    quote, semicolon or backslash. *)
Theorem validateSearchQuery_no_quotes (query : jsstring) :
  Forall (fun c => c ∉ [39; 34; 59; 92]%N) (validateSearchQuery query).
Proof.
  eapply Forall_sublist_of; [|apply (replace_class_Forall [39; 34; 59; 92]%N query)].
  rewrite validateSearchQuery_strip.
  etransitivity; [apply trim_sublist|].
  etransitivity; [apply sublist_take | apply strip_sublist].
Qed.

(** X3: the sanitizers only delete: the result keeps code units of the
    input, in the order of the input, and adds none. *)
Theorem sanitizers_only_delete (s : jsstring) :
  sanitizeText s `sublist_of` s /\ validateSearchQuery s `sublist_of` s.
Proof. split; [apply sanitizeText_sublist | apply validateSearchQuery_sublist]. Qed.

(** X4: the results neither start nor end with white space. *)
Theorem sanitizers_trimmed (s : jsstring) (c : N) :
  (head (sanitizeText s) = Some c \/ last (sanitizeText s) = Some c \/
   head (validateSearchQuery s) = Some c \/ last (validateSearchQuery s) = Some c) ->
  is_white_space c = false.
Proof.
  unfold sanitizeText, validateSearchQuery.
  intros [H|[H|[H|H]]]; eauto using trim_head, trim_last.
Qed.

Lemma sanitizers_trimmed_witness :
  head (sanitizeText (js "  <i>x y</i> ")) = Some 105%N /\
  is_white_space 105 = false.
Proof.
  assert (H : head (sanitizeText (js "  <i>x y</i> ")) = Some 105%N)
    by (vm_compute; reflexivity).
  exact (conj H (sanitizers_trimmed (js "  <i>x y</i> ") 105 (or_introl H))).
Defined.

Lemma not_angle (c : N) : c ∉ js "<>" <-> c <> 60%N /\ c <> 62%N.
Proof.
  change (js "<>") with [60; 62]%N. rewrite !not_elem_of_cons. split.
  - intros (? & ? & _). done.
  - intros [? ?]. repeat split; [done..|]. apply not_elem_of_nil.
Qed.

(** X5: [sanitizeText] returns its argument unchanged exactly when the
    argument holds no angle bracket and no javascript: in any case, and
    neither starts nor ends with white space. *)
Theorem sanitizeText_fixed_points (s : jsstring) :
  sanitizeText s = s <->
  Forall (fun c => c <> 60%N /\ c <> 62%N) s /\
  occurs re_javascript s = false /\
  trim s = s.
Proof.
  split.
  - intros E.
    assert (F : Forall (fun c => c ∉ js "<>") s).
    { rewrite <- E at 1.
      eapply Forall_sublist_of; [|apply (replace_class_Forall (js "<>") s)].
      unfold sanitizeText.
      etransitivity; [apply trim_sublist | apply replace_all_sublist]. }
    assert (A : replace_all re_angle s = s) by (by apply replace_class_fixed).
    unfold sanitizeText in E. rewrite A in E.
    destruct (occurs re_javascript s) eqn:O.
    + apply replace_all_occurrence in O.
      pose proof (trim_length (replace_all re_javascript s)) as L.
      rewrite E in L. lia.
    + rewrite (replace_all_no_occurrence _ _ O) in E.
      repeat split; [|exact E].
      eapply Forall_impl; [exact F|]. intros c. apply not_angle.
  - intros (F & O & T).
    assert (A : replace_all re_angle s = s).
    { apply replace_class_fixed.
      eapply Forall_impl; [exact F|]. intros c. apply not_angle. }
    unfold sanitizeText. by rewrite A, (replace_all_no_occurrence _ _ O).
Qed.

(** X6: [validateSearchQuery] returns its argument unchanged exactly when
    the argument has at most 100 code units, none of them a quote, a double
    quote, a semicolon or a backslash, holds none of the deleted sequences,
    and neither starts nor ends with white space. *)
Theorem validateSearchQuery_fixed_points (s : jsstring) :
  validateSearchQuery s = s <->
  (length s <= 100)%nat /\
  Forall (fun c => c ∉ [39; 34; 59; 92]%N) s /\
  none_occurs search_patterns s = true /\
  trim s = s.
Proof.
  split.
  - intros E.
    assert (L : (length s <= 100)%nat).
    { rewrite <- E, validateSearchQuery_strip. apply trim_take_length. }
    assert (F : Forall (fun c => c ∉ [39; 34; 59; 92]%N) s).
    { rewrite <- E at 1.
      eapply Forall_sublist_of; [|apply (replace_class_Forall [39; 34; 59; 92]%N s)].
      rewrite validateSearchQuery_strip.
      etransitivity; [apply trim_sublist|].
      etransitivity; [apply sublist_take | apply strip_sublist]. }
    rewrite validateSearchQuery_strip in E.
    change re_quotes with (mk [Class [39; 34; 59; 92]%N] false) in E.
    rewrite (replace_class_fixed _ _ F) in E.
    pose proof (strip_fixed_or_shorter search_patterns s) as H.
    destruct (none_occurs search_patterns s).
    + rewrite H, take_ge in E by exact L. done.
    + pose proof (trim_length (take 100 (strip search_patterns s))) as T.
      rewrite E, length_take in T. lia.
  - intros (L & F & O & T).
    rewrite validateSearchQuery_strip.
    change re_quotes with (mk [Class [39; 34; 59; 92]%N] false).
    rewrite (replace_class_fixed _ _ F).
    pose proof (strip_fixed_or_shorter search_patterns s) as H.
    rewrite O in H. by rewrite H, take_ge.
Qed.

(** X7: on a string of at most 100 code units, which is what the [search]
    field admits before its transform, the transform deletes and trims but
    cuts nothing off. *)
Theorem search_transform_keeps_all (s : jsstring) :
  (length s <= 100)%nat ->
  search_transform (Some s)
  = Some (trim (strip search_patterns (replace_all re_quotes s))).
Proof.
  intros L. destruct s as [|c s]; [reflexivity|].
  unfold search_transform. rewrite validateSearchQuery_strip, take_ge; [done|].
  etransitivity; [apply strip_length|].
  etransitivity; [apply replace_all_length | exact L].
Qed.

Lemma search_transform_keeps_all_witness :
  (length (js " o'brien; -- ") <= 100)%nat /\
  search_transform (Some (js " o'brien; -- ")) = Some (js "obrien").
Proof.
  assert (L : (length (js " o'brien; -- ") <= 100)%nat) by (vm_compute; lia).
  split; [exact L|].
  rewrite (search_transform_keeps_all _ L). vm_compute. reflexivity.
Defined.

(** X8: a string of white space only is sanitized to the empty string. *)
Theorem sanitizers_blank (s : jsstring) :
  Forall (fun c => is_white_space c = true) s ->
  sanitizeText s = [] /\ validateSearchQuery s = [].
Proof.
  intros B. split.
  - unfold sanitizeText. apply trim_blank.
    eapply Forall_sublist_of; [|exact B].
    etransitivity; apply replace_all_sublist.
  - rewrite validateSearchQuery_strip. apply trim_blank.
    eapply Forall_sublist_of; [|exact B].
    etransitivity; [apply sublist_take|].
    etransitivity; [apply strip_sublist | apply replace_all_sublist].
Qed.

Lemma sanitizers_blank_witness :
  Forall (fun c => is_white_space c = true) [32; 9; 10; 160]%N /\
  sanitizeText [32; 9; 10; 160]%N = [] /\
  validateSearchQuery [32; 9; 10; 160]%N = [].
Proof.
  assert (B : Forall (fun c => is_white_space c = true) [32; 9; 10; 160]%N)
    by (repeat constructor).
  exact (conj B (sanitizers_blank _ B)).
Defined.

End SanitizerFacts.

(** ** What the limiter guarantees over a run *)

Section LimiterRuns.
Import RateLimiter.

Lemma admitted_times_cons (b : jsstring) (l : RateLimiter.t) (identifier : jsstring)
    (now : Z) (rest : list (jsstring * Z)) :
  admitted_times b l ((identifier, now) :: rest) =
    (if decide (identifier = b /\ fst (call l identifier now) = true)
     then [now] else [])
    ++ admitted_times b (snd (call l identifier now)) rest.
Proof.
  unfold admitted_times. rewrite run_cons. cbn [fst zip zip_with].
  rewrite filter_cons. cbn [fst snd]. case_decide; reflexivity.
Qed.

Lemma admitted_times_other (a b : jsstring) (l : RateLimiter.t) (now : Z)
    (rest : list (jsstring * Z)) :
  a <> b ->
  admitted_times b l ((a, now) :: rest) = admitted_times b (snd (call l a now)) rest.
Proof.
  intros Hab. rewrite admitted_times_cons, decide_False; [reflexivity|].
  intros [E _]. contradiction.
Qed.

Lemma filter_length_impl (P Q : Z -> Prop) `{!forall x, Decision (P x)}
    `{!forall x, Decision (Q x)} (l : list Z) :
  (forall x, P x -> Q x) ->
  (length (filter P l) <= length (filter Q l))%nat.
Proof.
  intros Himp. rewrite <- (list_filter_filter_l P Q l Himp).
  apply sublist_length, sublist_filter.
Qed.

(** The invariant of the sliding window: [hist] are the times admitted for
    [b] so far and [lo] a time that no later call precedes. *)
Lemma window_invariant (b : jsstring) (w : Z) (m : Q) (calls : list (jsstring * Z)) :
  forall (l : RateLimiter.t) (hist : list Z) (lo : Z),
  windowMs l = w -> maxRequests l = m ->
  (forall T, lo <= T ->
     filter (fun x => T - w < x) (default [] (requests l !! b))
     = filter (fun x => T - w < x) hist) ->
  (forall T : Z,
     (inject_Z (Z.of_nat (length (filter (fun x => (T - w < x /\ x <= T)%Z) hist)))
      < m + 1)%Q) ->
  StronglySorted Z.le (map snd calls) ->
  Forall (fun c => lo <= snd c) calls ->
  forall T : Z,
    (inject_Z (Z.of_nat (length (filter (fun x => (T - w < x /\ x <= T)%Z)
                                   (hist ++ admitted_times b l calls))))
     < m + 1)%Q.
Proof.
  induction calls as [|[identifier now] rest IH];
    intros l hist lo Hw Hm View Bound Sorted Lo T.
  - unfold admitted_times. cbn. rewrite app_nil_r. apply Bound.
  - cbn [map snd] in Sorted. apply StronglySorted_cons in Sorted as [Later Sorted].
    apply Forall_cons in Lo as [Hnow Lo]. cbn [snd] in Hnow.
    destruct (call_config l identifier now) as [Cw Cm].
    destruct (decide (identifier = b)) as [->|Hne].
    + assert (R : recentRequests l b now = filter (fun x => now - w < x) hist).
      { unfold recentRequests. rewrite Hw. by apply View. }
      rewrite admitted_times_cons.
      destruct (Qle_bool m (inject_Z (Z.of_nat (length (recentRequests l b now)))))
        eqn:Test.
      * apply limit_reached in Test.
        rewrite call_rejects by (by rewrite Hm). cbn [fst snd].
        rewrite decide_False by (intros [_ ?]; discriminate). cbn [app].
        by apply (IH l hist lo).
      * apply limit_not_reached in Test.
        rewrite call_admits by (by rewrite Hm). cbn [fst snd].
        rewrite decide_True by done. rewrite app_assoc.
        apply (IH _ (hist ++ [now]) now); cbn [windowMs maxRequests requests];
          try done.
        -- intros T' HT'. rewrite lookup_insert_eq. cbn [default from_option id].
           rewrite R, !filter_app. f_equal.
           apply list_filter_filter_l. intros x. lia.
        -- intros T'. rewrite filter_app, length_app.
           destruct (decide (now <= T')) as [Le|Gt].
           ++ pose proof (filter_length_impl
                            (fun x => T' - w < x /\ x <= T')
                            (fun x => now - w < x) hist) as Hlen.
              rewrite R in Test.
              pose proof (length_filter (fun x => T' - w < x /\ x <= T') [now]) as L1.
              cbn [length] in L1.
              assert (Himp : forall x, T' - w < x /\ x <= T' -> now - w < x)
                by (intros x; lia).
              specialize (Hlen Himp).
              assert (Hz : Z.of_nat (length (filter (fun x => T' - w < x /\ x <= T') hist)
                                     + length (filter (fun x => T' - w < x /\ x <= T') [now]))
                           <= Z.of_nat (length (filter (fun x => now - w < x) hist)) + 1)
                by lia.
              rewrite Zle_Qle, inject_Z_plus in Hz.
              change (inject_Z 1) with 1%Q in Hz. lra.
           ++ rewrite (filter_cons_False _ now) by lia.
              rewrite filter_nil. cbn [length]. rewrite Nat.add_0_r. apply Bound.
        -- rewrite Forall_fmap in Later. eapply Forall_impl; [exact Later|].
           intros c. done.
    + rewrite admitted_times_other by exact Hne.
      apply (IH _ hist lo); try done; [congruence | congruence |].
      intros T' HT'. rewrite call_other by exact Hne. by apply View.
Qed.

(** X9: when the clock does not go back and [maxRequests] is not negative,
    the calls that a fresh limiter admits for one identifier number fewer
    than [maxRequests + 1] in every window of [windowMs] milliseconds,
    wherever the window ends: at most [maxRequests] when [maxRequests] is a
    whole number. *)
Theorem sliding_window_bound (windowMs : Z) (maxRequests : Q)
    (calls : list (jsstring * Z)) (b : jsstring) (T : Z) :
  (0 <= maxRequests)%Q ->
  monotone_clock calls ->
  (inject_Z (Z.of_nat (length (filter (fun x => (T - windowMs < x /\ x <= T)%Z)
       (admitted_times b (createRateLimiter windowMs maxRequests) calls))))
   < maxRequests + 1)%Q /\
  forall k : Z,
    (maxRequests == inject_Z k)%Q ->
    Z.of_nat (length (filter (fun x => T - windowMs < x /\ x <= T)
       (admitted_times b (createRateLimiter windowMs maxRequests) calls))) <= k.
Proof.
  intros Hm Sorted.
  assert (B : (inject_Z (Z.of_nat (length (filter (fun x => (T - windowMs < x /\ x <= T)%Z)
                 (admitted_times b (createRateLimiter windowMs maxRequests) calls))))
               < maxRequests + 1)%Q).
  { apply (window_invariant b windowMs maxRequests calls
             (createRateLimiter windowMs maxRequests) []
             (match calls with [] => 0 | c :: _ => snd c end)); try done.
    - intros T'. change (inject_Z _) with 0%Q. lra.
    - unfold monotone_clock in Sorted.
      destruct calls as [|c rest]; [constructor|].
      cbn [map] in Sorted. apply StronglySorted_cons in Sorted as [Later _].
      constructor; [cbn; lia|]. rewrite Forall_fmap in Later. exact Later. }
  split; [exact B|]. intros k E. by apply (whole_ceiling maxRequests).
Qed.

Lemma sliding_window_bound_witness :
  let calls := [(js "a", 0); (js "b", 10); (js "a", 400); (js "a", 900);
                (js "a", 1000); (js "a", 1399); (js "a", 1400)] in
  (0 <= 2)%Q /\ monotone_clock calls /\
  admitted_times (js "a") (createRateLimiter 1000 2) calls = [0; 400; 1000; 1400] /\
  Z.of_nat (length (filter (fun x => 1400 - 1000 < x /\ x <= 1400)
                      (admitted_times (js "a") (createRateLimiter 1000 2) calls))) <= 2.
Proof.
  intros calls.
  assert (Hm : (0 <= 2)%Q) by (vm_compute; discriminate).
  assert (Hs : monotone_clock calls).
  { unfold monotone_clock, calls. cbn [map snd].
    repeat (apply SSorted_cons; [|repeat constructor; lia]). constructor. }
  split; [exact Hm|]. split; [exact Hs|]. split; [vm_compute; reflexivity|].
  exact (proj2 (sliding_window_bound 1000 2 calls (js "a") 1400 Hm Hs) 2 (Qeq_refl _)).
Defined.

(** With a ceiling that is not whole the count can pass the ceiling and
    stays below the ceiling plus one: three calls in a window with
    [maxRequests = 2.5]. *)
Example fractional_ceiling :
  let calls := [(js "a", 0); (js "a", 1); (js "a", 2); (js "a", 3)] in
  fst (run (createRateLimiter 1000 (5 # 2)) calls) = [true; true; true; false] /\
  admitted_times (js "a") (createRateLimiter 1000 (5 # 2)) calls = [0; 1; 2].
Proof. split; vm_compute; reflexivity. Qed.

(** When the clock goes back the bound can be exceeded: three admitted
    calls lie in the window that ends at 1999. *)
Example clock_going_back :
  let calls := [(js "a", 1000); (js "a", 1100); (js "a", 2500); (js "a", 1200)] in
  fst (run (createRateLimiter 1000 2) calls) = [true; true; true; true] /\
  filter (fun x => 1999 - 1000 < x /\ x <= 1999)
    (admitted_times (js "a") (createRateLimiter 1000 2) calls) = [1000; 1100; 1200].
Proof. split; vm_compute; reflexivity. Qed.

(** The stored list and the admitted times. *)
Lemma records_run (b : jsstring) (calls : list (jsstring * Z)) :
  forall (l : RateLimiter.t) (hist : list Z),
  records b l hist ->
  records b (snd (run l calls)) (hist ++ admitted_times b l calls).
Proof.
  induction calls as [|[identifier now] rest IH]; intros l hist Rec.
  - unfold admitted_times. cbn. by rewrite app_nil_r.
  - rewrite run_cons, admitted_times_cons. cbn [snd]. rewrite app_assoc.
    apply IH. unfold call. destruct (Qle_bool _ _); cbn [fst snd].
    + rewrite decide_False by (intros [_ ?]; discriminate). by rewrite app_nil_r.
    + destruct (decide (identifier = b)) as [->|Hne].
      * rewrite decide_True by done.
        unfold records in *. cbn [requests]. rewrite lookup_insert_eq.
        split; [|split].
        -- apply sublist_app; [|reflexivity].
           unfold recentRequests. etransitivity; [apply sublist_filter|].
           destruct (requests l !! b) as [ts|]; [apply Rec | apply sublist_nil_l].
        -- by destruct hist.
        -- by rewrite !last_snoc.
      * rewrite decide_False by (intros [? _]; contradiction). rewrite app_nil_r.
        unfold records in *. cbn [requests]. by rewrite lookup_insert_ne.
Qed.

(** X10: after a run of a fresh limiter an identifier has an entry exactly
    when one of its calls was admitted; the stored list then holds admitted
    times of that identifier only, in the order of their admission, and ends
    with the latest of them. *)
Theorem stored_history (windowMs : Z) (maxRequests : Q) (calls : list (jsstring * Z))
    (b : jsstring) :
  match requests (snd (run (createRateLimiter windowMs maxRequests) calls)) !! b with
  | None => admitted_times b (createRateLimiter windowMs maxRequests) calls = []
  | Some ts =>
      ts `sublist_of` admitted_times b (createRateLimiter windowMs maxRequests) calls /\
      admitted_times b (createRateLimiter windowMs maxRequests) calls <> [] /\
      last ts = last (admitted_times b (createRateLimiter windowMs maxRequests) calls)
  end.
Proof.
  apply (records_run b calls (createRateLimiter windowMs maxRequests) []).
  unfold records. cbn. by rewrite lookup_empty.
Qed.

(** X11: a limiter whose [maxRequests] is zero or negative rejects every
    call and never changes. *)
Theorem no_budget_rejects_all (l : RateLimiter.t) (calls : list (jsstring * Z)) :
  (maxRequests l <= 0)%Q ->
  run l calls = (replicate (length calls) false, l).
Proof.
  intros Hm. induction calls as [|[identifier now] rest IH]; [reflexivity|].
  rewrite run_cons, call_rejects; [cbn [fst snd length replicate]; by rewrite IH|].
  apply (Qle_trans _ 0); [exact Hm|].
  change 0%Q with (inject_Z 0). rewrite <- Zle_Qle. lia.
Qed.

Lemma no_budget_rejects_all_witness :
  run (createRateLimiter 1000 0) [(js "a", 0); (js "b", 1); (js "a", 5000)]
  = ([false; false; false], createRateLimiter 1000 0).
Proof.
  apply (no_budget_rejects_all (createRateLimiter 1000 0)
           [(js "a", 0); (js "b", 1); (js "a", 5000)]).
  vm_compute. discriminate.
Defined.

Lemma filter_none (P : Z -> Prop) `{!forall x, Decision (P x)} (l : list Z) :
  Forall (fun x => ~ P x) l -> filter P l = [].
Proof.
  induction 1 as [|x l Hx _ IH]; [reflexivity|].
  by rewrite filter_cons_False.
Qed.

(** X12: an identifier with no stored timestamp newer than
    [now - windowMs], one never seen among them, is admitted whenever
    [maxRequests] is positive, and its list becomes the single timestamp
    [now]. *)
Theorem idle_identifier_admitted (l : RateLimiter.t) (identifier : jsstring) (now : Z) :
  (0 < maxRequests l)%Q ->
  Forall (fun time => time <= now - windowMs l)
    (default [] (requests l !! identifier)) ->
  call l identifier now
  = (true, mk (windowMs l) (maxRequests l) (<[identifier := [now]]> (requests l))).
Proof.
  intros Hm Old.
  assert (R : recentRequests l identifier now = []).
  { unfold recentRequests. apply filter_none.
    eapply Forall_impl; [exact Old|]. intros x. cbv beta. lia. }
  rewrite call_admits by (rewrite R; exact Hm). by rewrite R.
Qed.

Lemma idle_identifier_admitted_witness :
  let l := snd (run (createRateLimiter 1000 1) [(js "a", 0)]) in
  (0 < maxRequests l)%Q /\
  fst (call l (js "a") 999) = false /\
  call l (js "a") 1000 = (true, mk 1000 1 (<[js "a" := [1000]]> (requests l))) /\
  call l (js "new") 5 = (true, mk 1000 1 (<[js "new" := [5]]> (requests l))).
Proof.
  intros l.
  assert (Hm : (0 < maxRequests l)%Q) by (vm_compute; reflexivity).
  assert (Ha : Forall (fun time => time <= 1000 - windowMs l)
                 (default [] (requests l !! js "a")))
    by (vm_compute; repeat constructor; discriminate).
  assert (Hn : Forall (fun time => time <= 5 - windowMs l)
                 (default [] (requests l !! js "new")))
    by (vm_compute; constructor).
  split; [exact Hm|]. split; [vm_compute; reflexivity|]. split.
  - exact (idle_identifier_admitted l (js "a") 1000 Hm Ha).
  - exact (idle_identifier_admitted l (js "new") 5 Hm Hn).
Defined.

(** X13: a run never removes an entry of the map, and the entries it adds
    are identifiers of its calls. *)
Theorem entries_never_deleted (l : RateLimiter.t) (calls : list (jsstring * Z)) :
  dom (requests l) ⊆ dom (requests (snd (run l calls))) /\
  dom (requests (snd (run l calls))) ⊆ dom (requests l) ∪ list_to_set (map fst calls).
Proof.
  revert l. induction calls as [|[identifier now] rest IH]; intros l.
  - cbn. split; [reflexivity | apply union_subseteq_l].
  - rewrite run_cons. cbn [snd map fst list_to_set].
    destruct (IH (snd (call l identifier now))) as [Lo Hi].
    assert (D : dom (requests (snd (call l identifier now))) = dom (requests l) \/
                dom (requests (snd (call l identifier now)))
                  = {[identifier]} ∪ dom (requests l)).
    { unfold call. destruct (Qle_bool _ _); cbn [snd requests]; [by left|].
      right. apply dom_insert_L. }
    destruct D as [D|D]; rewrite D in Lo, Hi; clear D IH;
      set_unfold; (split; intros x Hx; [apply Lo; tauto | apply Hi in Hx; tauto]).
Qed.

(** Pruning the stored list at a time that no call exceeds gives what
    pruning all the admitted times gives. *)
Lemma view_run (b : jsstring) (w : Z) (calls : list (jsstring * Z)) :
  forall (l : RateLimiter.t) (hist : list Z) (lo : Z),
  windowMs l = w ->
  (forall T, lo <= T ->
     filter (fun x => T - w < x) (default [] (requests l !! b))
     = filter (fun x => T - w < x) hist) ->
  StronglySorted Z.le (map snd calls) ->
  Forall (fun c => lo <= snd c) calls ->
  forall T, lo <= T -> Forall (fun c => snd c <= T) calls ->
    filter (fun x => T - w < x) (default [] (requests (snd (run l calls)) !! b))
    = filter (fun x => T - w < x) (hist ++ admitted_times b l calls).
Proof.
  induction calls as [|[identifier now] rest IH];
    intros l hist lo Hw View Sorted Lo T HT Before.
  - unfold admitted_times. cbn. rewrite app_nil_r. by apply View.
  - cbn [map snd] in Sorted. apply StronglySorted_cons in Sorted as [Later Sorted].
    apply Forall_cons in Before as [Hnow Before]. cbn [snd] in Hnow.
    apply Forall_cons in Lo as [Hlo Lo]. cbn [snd] in Hlo.
    destruct (call_config l identifier now) as [Cw _].
    rewrite run_cons, admitted_times_cons. cbn [snd].
    unfold call. destruct (Qle_bool _ _); cbn [fst snd].
    + rewrite decide_False by (intros [_ ?]; discriminate). cbn [app].
      by apply (IH l hist lo).
    + destruct (decide (identifier = b)) as [->|Hne].
      * rewrite decide_True by done. rewrite app_assoc.
        apply (IH _ (hist ++ [now]) now); cbn [windowMs requests]; try done.
        -- intros T' HT'. rewrite lookup_insert_eq. cbn [default from_option id].
           rewrite !filter_app. f_equal.
           unfold recentRequests. rewrite Hw, (View now Hlo).
           apply list_filter_filter_l. intros x. lia.
        -- rewrite Forall_fmap in Later. eapply Forall_impl; [exact Later|].
           intros c. done.
      * rewrite decide_False by (intros [? _]; contradiction). cbn [app].
        apply (IH _ hist lo); cbn [windowMs requests]; try done.
        intros T' HT'. rewrite lookup_insert_ne by exact Hne. by apply View.
Qed.

(** X19: when the clock does not go back, a call is admitted exactly when
    fewer than [maxRequests] of the calls admitted before it for its
    identifier are newer than [now - windowMs]. *)
Theorem admission_exact (windowMs : Z) (maxRequests : Q) (calls : list (jsstring * Z))
    (b : jsstring) (now : Z) :
  monotone_clock (calls ++ [(b, now)]) ->
  fst (call (snd (run (createRateLimiter windowMs maxRequests) calls)) b now) = true
  <-> (inject_Z (Z.of_nat (length (filter (fun x => (now - windowMs < x)%Z)
          (admitted_times b (createRateLimiter windowMs maxRequests) calls))))
       < maxRequests)%Q.
Proof.
  unfold monotone_clock. rewrite map_app. cbn [map snd].
  intros Sorted. apply StronglySorted_app in Sorted as (Before & Sorted & _).
  assert (Cfg : forall cs (l : RateLimiter.t),
            RateLimiter.windowMs (snd (run l cs)) = RateLimiter.windowMs l /\
            RateLimiter.maxRequests (snd (run l cs)) = RateLimiter.maxRequests l).
  { induction cs as [|[i t] cs IHcs]; intros l; [done|].
    rewrite run_cons. cbn [snd]. destruct (IHcs (snd (call l i t))) as [-> ->].
    apply call_config. }
  destruct (Cfg calls (createRateLimiter windowMs maxRequests)) as [Ew Em].
  cbn [RateLimiter.windowMs RateLimiter.maxRequests createRateLimiter] in Ew, Em.
  assert (Times : Forall (fun c : jsstring * Z => snd c <= now) calls).
  { apply Forall_forall. intros c Hc. apply (Before (snd c) now).
    - apply list_elem_of_fmap. by exists c.
    - apply list_elem_of_singleton. reflexivity. }
  assert (R : recentRequests (snd (run (createRateLimiter windowMs maxRequests) calls)) b now
              = filter (fun x => now - windowMs < x)
                  (admitted_times b (createRateLimiter windowMs maxRequests) calls)).
  { unfold recentRequests. rewrite Ew.
    apply (view_run b windowMs calls (createRateLimiter windowMs maxRequests) []
             (match calls with [] => now | c :: _ => snd c end));
      try done.
    - destruct calls as [|c rest]; [constructor|].
      cbn [map] in Sorted. apply StronglySorted_cons in Sorted as [Later _].
      constructor; [cbn; lia|]. rewrite Forall_fmap in Later. exact Later.
    - destruct calls as [|c rest]; [lia|]. by apply Forall_cons in Times as [? _]. }
  unfold call. rewrite R, Em. rewrite <- limit_not_reached.
  destruct (Qle_bool _ _); cbn [fst]; split; congruence.
Qed.

Lemma admission_exact_witness :
  let calls := [(js "a", 0); (js "a", 500); (js "a", 600)] in
  monotone_clock (calls ++ [(js "a", 1000)]) /\
  fst (call (snd (run (createRateLimiter 1000 2) calls)) (js "a") 1000) = true.
Proof.
  intros calls.
  assert (Hs : monotone_clock (calls ++ [(js "a", 1000)])).
  { unfold monotone_clock, calls. cbn [map snd app].
    repeat (apply SSorted_cons; [|repeat constructor; lia]). constructor. }
  split; [exact Hs|].
  apply (admission_exact 1000 2 calls (js "a") 1000 Hs). vm_compute. reflexivity.
Defined.

End LimiterRuns.

(** ** The query of the users route *)

Section UsersFacts.
Import Users.

Lemma digits_nonempty (fuel : nat) (n : N) (acc : jsstring) :
  digits (S fuel) n acc <> [].
Proof.
  revert n acc. induction fuel as [|fuel IH]; intros n acc; simpl.
  - destruct (n / 10 =? 0)%N; discriminate.
  - destruct (n / 10 =? 0)%N; [discriminate|]. apply IH.
Qed.

Lemma toString_nonempty (z : Z) : exists c s, toString z = c :: s.
Proof.
  unfold toString. destruct (z <? 0); [eauto|].
  pose proof (digits_nonempty (N.to_nat (N.log2 (Z.abs_N z))) (Z.abs_N z) []) as H.
  destruct (digits _ _ _) as [|c s]; [congruence | eauto].
Qed.

(** X14: the query that [GET] sends on starts with [page] and [per_page],
    holds no other names than these two, [search] and [role], each at most
    once and in this order, and no empty value. *)
Theorem GET_params_shape (get : jsstring -> option jsstring) :
  take 2 (map fst (GET_params get)) = [js "page"; js "per_page"] /\
  map fst (GET_params get)
    `sublist_of` [js "page"; js "per_page"; js "search"; js "role"] /\
  Forall (fun entry => snd entry <> []) (GET_params get).
Proof.
  unfold GET_params.
  destruct (get (js "page")) as [[|c1 s1]|], (get (js "per_page")) as [[|c2 s2]|],
           (get (js "search")) as [[|c3 s3]|], (get (js "role")) as [[|c4 s4]|];
    cbn [or_else spread_if app map fst snd take];
    (split; [reflexivity|]; split;
       [repeat constructor | repeat constructor; discriminate]).
Qed.

(** X15: sending the query of [GET] through [GET] again gives the same
    query. *)
Theorem GET_params_idempotent (get : jsstring -> option jsstring) :
  GET_params (params_get (GET_params get)) = GET_params get.
Proof.
  unfold GET_params at 2 3.
  destruct (get (js "page")) as [[|c1 s1]|], (get (js "per_page")) as [[|c2 s2]|],
           (get (js "search")) as [[|c3 s3]|], (get (js "role")) as [[|c4 s4]|];
    vm_compute; reflexivity.
Qed.

(** X16: [GET] sends on the query that [fetchUsers] of the table builds,
    entry for entry. *)
Theorem GET_forwards_fetchUsers (page rowsPerPage : Z) (searchDebounce roleFilter : jsstring) :
  GET_params (params_get (fetchUsers_params page rowsPerPage searchDebounce roleFilter))
  = fetchUsers_params page rowsPerPage searchDebounce roleFilter.
Proof.
  unfold fetchUsers_params.
  destruct (toString_nonempty (page + 1)) as (c1 & s1 & ->).
  destruct (toString_nonempty rowsPerPage) as (c2 & s2 & ->).
  destruct searchDebounce as [|c3 s3], roleFilter as [|c4 s4];
    vm_compute; reflexivity.
Qed.

(** X17: a parameter of the request that is present and not empty is sent
    on as it is; a missing or empty [page] becomes 1, [per_page] becomes 10,
    and a missing or empty [search] or [role] is left out. *)
Theorem GET_params_lookup (get : jsstring -> option jsstring) :
  (forall name v,
     name ∈ [js "page"; js "per_page"; js "search"; js "role"] ->
     get name = Some v -> v <> [] ->
     params_get (GET_params get) name = Some v) /\
  (forall name,
     name ∈ [js "page"; js "per_page"; js "search"; js "role"] ->
     get name = None \/ get name = Some [] ->
     params_get (GET_params get) name =
       if decide (name = js "page") then Some (js "1")
       else if decide (name = js "per_page") then Some (js "10")
       else None).
Proof.
  unfold GET_params. split.
  - intros name v Hname Hget Hv.
    repeat (apply elem_of_cons in Hname as [->|Hname]);
      [| | | |by apply not_elem_of_nil in Hname];
      rewrite Hget; destruct v as [|c s]; try congruence;
      destruct (get (js "page")) as [[|c1 s1]|], (get (js "per_page")) as [[|c2 s2]|],
               (get (js "search")) as [[|c3 s3]|], (get (js "role")) as [[|c4 s4]|];
      vm_compute; congruence.
  - intros name Hname Hget.
    repeat (apply elem_of_cons in Hname as [->|Hname]);
      [| | | |by apply not_elem_of_nil in Hname];
      destruct Hget as [Hget|Hget]; rewrite Hget;
      destruct (get (js "page")) as [[|c1 s1]|], (get (js "per_page")) as [[|c2 s2]|],
               (get (js "search")) as [[|c3 s3]|], (get (js "role")) as [[|c4 s4]|];
      vm_compute; congruence.
Qed.

Lemma GET_params_lookup_witness :
  let get := params_get [(js "page", js "3"); (js "search", []); (js "debug", js "1")] in
  params_get (GET_params get) (js "page") = Some (js "3") /\
  params_get (GET_params get) (js "per_page") = Some (js "10") /\
  params_get (GET_params get) (js "search") = None.
Proof.
  intros get. destruct (GET_params_lookup get) as [Present Absent].
  assert (In1 : js "page" ∈ [js "page"; js "per_page"; js "search"; js "role"])
    by (apply elem_of_cons; left; reflexivity).
  assert (In2 : js "per_page" ∈ [js "page"; js "per_page"; js "search"; js "role"])
    by (apply elem_of_cons; right; apply elem_of_cons; left; reflexivity).
  assert (In3 : js "search" ∈ [js "page"; js "per_page"; js "search"; js "role"])
    by (do 2 (apply elem_of_cons; right); apply elem_of_cons; left; reflexivity).
  assert (G1 : get (js "page") = Some (js "3")) by (vm_compute; reflexivity).
  assert (G2 : get (js "per_page") = None) by (vm_compute; reflexivity).
  assert (G3 : get (js "search") = Some []) by (vm_compute; reflexivity).
  assert (N1 : js "3" <> []) by (vm_compute; discriminate).
  split; [exact (Present _ _ In1 G1 N1)|]. split.
  - exact (Absent _ In2 (or_introl G2)).
  - exact (Absent _ In3 (or_intror G3)).
Defined.

(** X18: [getRoleColor] answers default exactly for the strings that are
    not a role of [userValidationSchema]. *)
Theorem getRoleColor_default_iff (role : jsstring) :
  getRoleColor role = js "default" <-> role ∉ roles.
Proof.
  unfold getRoleColor, roles. rewrite !not_elem_of_cons.
  repeat case_decide; subst; split; try discriminate; try tauto.
  - intros _. repeat split; try assumption. apply not_elem_of_nil.
Qed.

End UsersFacts.
